(** * txt-sentencers_cn: the sentence extraction and cleaning pipeline

    A shallow embedding of the two Go programs of the repository:

    - [main.go]: reads a text file line by line, extracts the Chinese and
      the English runs of every line with two regular expressions, and
      writes three cleaned files;
    - the sibling program: inserts a newline after Chinese punctuation in a
      whole file, drops blank lines and writes [<stem>_sc<ext>].

    Text is modelled as the sequence of its Unicode code points (the input
    is UTF-8, and every library function used by the programs -- [regexp],
    [strings.TrimSpace], [strings.Split] on the newline -- works rune by rune on
    such text). *)

From Stdlib Require Import String Ascii ZArith List Bool Lia.
From Stdlib Require Import Permutation.
Import ListNotations.
Open Scope Z_scope.

(** ** Text *)

Definition rune := Z.
Definition gostring := list rune.

(** A Go string literal made of ASCII characters only. *)
Definition str (s : string) : gostring :=
  map (fun a => Z.of_nat (nat_of_ascii a)) (list_ascii_of_string s).

Arguments str s%_string.

Definition NL : rune := 10.   (* '\n' *)
Definition CR : rune := 13.   (* '\r' *)

Definition in_range (lo hi c : rune) : bool := (lo <=? c) && (c <=? hi).

Definition one_of (cs : list rune) (c : rune) : bool := existsb (Z.eqb c) cs.

(** Length of the UTF-8 encoding of a rune and of a string, in bytes. *)
Definition utf8_len (c : rune) : Z :=
  if c <? 128 then 1 else if c <? 2048 then 2 else if c <? 65536 then 3 else 4.

Definition byteLen (s : gostring) : Z :=
  fold_right (fun c n => utf8_len c + n) 0 s.

(** ** Character classes of the Go libraries *)

(** [unicode.IsSpace]: the characters [strings.TrimSpace] removes. *)
Definition IsSpace (c : rune) : bool :=
  one_of [9; 10; 11; 12; 13; 32; 133; 160; 5760; 8232; 8233; 8239; 8287; 12288] c
  || in_range 8192 8202 c.

(** [\s] of the [regexp] syntax: [[\t\n\f\r ]]. *)
Definition perl_space (c : rune) : bool := one_of [9; 10; 12; 13; 32] c.

(** [\d] of the [regexp] syntax: [[0-9]]. *)
Definition perl_digit (c : rune) : bool := in_range 48 57 c.

(** [\p{Han}]: the range table [unicode.Han] of the Go library (the
    script Han of Unicode 15); the entry with stride 2, U+3005 to U+3007,
    is written as its two characters. *)
Definition Han_table : list (rune * rune) :=
  [ (11904, 11929); (11931, 12019); (12032, 12245);
    (12293, 12293); (12295, 12295);
    (12321, 12329); (12344, 12347);
    (13312, 19903); (19968, 40959);
    (63744, 64109); (64112, 64217);
    (94178, 94179); (94192, 94193);
    (131072, 173791); (173824, 177977); (177984, 178205);
    (178208, 183969); (183984, 191456);
    (194560, 195101); (196608, 201546); (201552, 205743) ].

Definition Han (c : rune) : bool :=
  existsb (fun r => in_range (fst r) (snd r) c) Han_table.

(** ** Character classes of the programs *)

(** The class of [chineseSentenceRegex], in the order of the pattern:
    [\p{Han}], [\d], the fullwidth digits U+FF10-U+FF19, then
    。 ， ！ ？ ： ； （ ） 【 】 《 》 and the four curly quotes
    U+201C U+201D U+2018 U+2019, the escaped hyphen, the colon, the full
    stop, [\s], ︱ 、 and the escaped backslash. *)
Definition chineseClass (c : rune) : bool :=
  Han c || perl_digit c || in_range 65296 65305 c
  || one_of [ 12290; 65292; 65281; 65311; 65306; 65307; 65288; 65289;
              12304; 12305; 12298; 12299; 8220; 8221; 8216; 8217;
              45; 58; 46 ] c
  || perl_space c
  || one_of [ 65073; 12289; 92 ] c.

(** The class of [englishSentenceRegex], in the order of the pattern:
    a-z, A-Z, 0-9, then . , ! ? ; : the apostrophe U+0027, the straight
    quote U+0022, ( ) the escaped hyphen, the colon, [\s], the vertical
    bar and the escaped backslash. *)
Definition englishClass (c : rune) : bool :=
  in_range 97 122 c || in_range 65 90 c || in_range 48 57 c
  || one_of [ 46; 44; 33; 63; 59; 58; 39; 34; 40; 41; 45; 58 ] c
  || perl_space c
  || one_of [ 124; 92 ] c.

(** The class of [splitAfterPunctuation], in the order of the pattern:
    ︱ | 丨 ， , ， 。 . ? ？ / the escaped backslash 、 ： ; ； : — — … …
    the left curly quote U+201C, the straight quote U+0022, the right
    curly quote U+201D, ！ and !. *)
Definition splitterChars : list rune :=
  [ 65073; 124; 20008; 65292; 44; 65292; 12290; 46; 63; 65311; 47; 92;
    12289; 65306; 59; 65307; 58; 8212; 8212; 8230; 8230;
    8220; 34; 8221; 65281; 33 ].

Definition splitterClass : rune -> bool := one_of splitterChars.

(** The class of [punctuationOnlyRegex], in the order of the pattern:
    . , ! ? ; : the apostrophe U+0027, 【 】 。 、 ： ； … … — — ！ 丨 ︱ and a
    final hyphen. *)
Definition punctuationOnlyChars : list rune :=
  [ 46; 44; 33; 63; 59; 58; 39; 12304; 12305; 12290; 12289; 65306; 65307;
    8230; 8230; 8212; 8212; 65281; 20008; 65073; 45 ].

Definition punctuationOnlyClass : rune -> bool := one_of punctuationOnlyChars.

(** The class of the sibling program: ， 。 ？ ： ！ ； 、 … … — —. *)
Definition chinesePunctuationChars : list rune :=
  [ 65292; 12290; 65311; 65306; 65281; 65307; 12289; 8230; 8230; 8212; 8212 ].

Definition chinesePunctuationClass : rune -> bool :=
  one_of chinesePunctuationChars.

(** ** The [strings] package *)

(** [strings.Split(s, sep)] and [strings.Join(elems, sep)] for a separator
    of one character. *)
Fixpoint splitOn (sep : rune) (s : gostring) : list gostring :=
  match s with
  | [] => [[]]
  | c :: s' =>
      if c =? sep then [] :: splitOn sep s'
      else match splitOn sep s' with
           | l :: ls => (c :: l) :: ls
           | [] => [[c]]
           end
  end.

Fixpoint joinWith (sep : rune) (elems : list gostring) : gostring :=
  match elems with
  | [] => []
  | [l] => l
  | l :: ls => l ++ sep :: joinWith sep ls
  end.

(** The two programs split and join on the newline only. *)
Definition Split (s : gostring) : list gostring := splitOn NL s.
Definition Join (lines : list gostring) : gostring := joinWith NL lines.

Fixpoint dropWhile (p : rune -> bool) (s : gostring) : gostring :=
  match s with
  | [] => []
  | c :: s' => if p c then dropWhile p s' else s
  end.

Fixpoint takeWhile (p : rune -> bool) (s : gostring) : gostring :=
  match s with
  | [] => []
  | c :: s' => if p c then c :: takeWhile p s' else []
  end.

Definition gostring_eqb (a b : gostring) : bool :=
  if list_eq_dec Z.eq_dec a b then true else false.

Definition TrimLeftFunc (p : rune -> bool) (s : gostring) : gostring :=
  dropWhile p s.

Definition TrimRightFunc (p : rune -> bool) (s : gostring) : gostring :=
  rev (dropWhile p (rev s)).

(** [strings.TrimSpace]. *)
Definition TrimSpace (s : gostring) : gostring :=
  TrimRightFunc IsSpace (TrimLeftFunc IsSpace s).

(** [strings.TrimSuffix]. *)
Definition TrimSuffix (s suffix : gostring) : gostring :=
  let n := (List.length s - List.length suffix)%nat in
  if (List.length suffix <=? List.length s)%nat
     && gostring_eqb (skipn n s) suffix
  then firstn n s else s.

(** ** The [regexp] package, on the patterns the programs use *)

(** [FindAllString(s, -1)] for a pattern [[cls]+]: the successive greedy
    runs of characters of the class.  [cur] is the run
    being read, most recent character first. *)
Fixpoint findRuns (cls : rune -> bool) (cur : gostring) (s : gostring)
  : list gostring :=
  match s with
  | [] => match cur with [] => [] | _ => [rev cur] end
  | c :: s' =>
      if cls c then findRuns cls (c :: cur) s'
      else match cur with
           | [] => findRuns cls [] s'
           | _ => rev cur :: findRuns cls [] s'
           end
  end.

Definition FindAllString (cls : rune -> bool) (s : gostring) : list gostring :=
  findRuns cls [] s.

(** [ReplaceAllString] for a pattern [([cls])] and the template made of
    [$1] and a newline: every match, a single character of the class, is
    replaced by itself followed by a newline. *)
Fixpoint ReplaceAllString (cls : rune -> bool) (s : gostring) : gostring :=
  match s with
  | [] => []
  | c :: s' =>
      if cls c then c :: NL :: ReplaceAllString cls s'
      else c :: ReplaceAllString cls s'
  end.

(** [MatchString] for a pattern [^[cls]+$]: without the [m] flag the
    anchors are the two ends of the text. *)
Definition MatchString (cls : rune -> bool) (s : gostring) : bool :=
  match s with
  | [] => false
  | _ => forallb cls s
  end.

(** ** The functions of main.go *)

Definition splitAfterPunctuation (content : gostring) : gostring :=
  ReplaceAllString splitterClass content.

Definition joinLines (lines : list gostring) : gostring := Join lines.

(** The loop of [removeEmptyLines]: trimmed lines that are not empty. *)
Fixpoint nonEmptyLines (lines : list gostring) : list gostring :=
  match lines with
  | [] => []
  | line :: rest =>
      let trimmed := TrimSpace line in
      match trimmed with
      | [] => nonEmptyLines rest
      | _ => trimmed :: nonEmptyLines rest
      end
  end.

Definition removeEmptyLines (content : gostring) : gostring :=
  Join (nonEmptyLines (Split content)).

(** The loop of [removePunctuationOnlyLines]. *)
Fixpoint nonPunctuationLines (lines : list gostring) : list gostring :=
  match lines with
  | [] => []
  | line :: rest =>
      let trimmed := TrimSpace line in
      if negb (match trimmed with [] => true | _ => false end)
         && negb (MatchString punctuationOnlyClass trimmed)
      then trimmed :: nonPunctuationLines rest
      else nonPunctuationLines rest
  end.

Definition removePunctuationOnlyLines (content : gostring) : gostring :=
  Join (nonPunctuationLines (Split content)).

(** ** The [bufio] package: a [Scanner] with the default [ScanLines] *)

Inductive error :=
| ErrCancelled                 (* dialog.Cancelled *)
| ErrTooLong                   (* bufio.ErrTooLong *)
| ErrOS (msg : gostring).      (* an error of the operating system *)

(** The method [Error()], what [%v] prints. *)
Definition Error (e : error) : gostring :=
  match e with
  | ErrCancelled => str "Cancelled"
  | ErrTooLong => str "bufio.Scanner: token too long"
  | ErrOS msg => msg
  end.

Definition isCancelled (e : error) : bool :=
  match e with ErrCancelled => true | _ => false end.

Definition MaxScanTokenSize : Z := 65536.

(** [dropCR]: one carriage return at the end of a line is dropped. *)
Definition dropCR (data : gostring) : gostring :=
  match rev data with
  | c :: r => if c =? CR then rev r else data
  | [] => data
  end.

(** The pieces [ScanLines] cuts the data into: one per newline, and what
    follows the last newline when it is not empty. *)
Fixpoint scanPieces (pieces : list gostring) : list gostring :=
  match pieces with
  | [] => []
  | [last] => match last with [] => [] | _ => [last] end
  | p :: rest => p :: scanPieces rest
  end.

(** The tokens of the successive calls of [Scan()], and the value of
    [Err()] after the loop.  A piece that does not fit the buffer of
    [MaxScanTokenSize] bytes stops the scanner with [ErrTooLong]. *)
Fixpoint scanTokens (pieces : list gostring) : list gostring * option error :=
  match pieces with
  | [] => ([], None)
  | p :: rest =>
      if MaxScanTokenSize <=? byteLen p then ([], Some ErrTooLong)
      else let (tokens, err) := scanTokens rest in (dropCR p :: tokens, err)
  end.

(** Scanning [data], the bytes the reader delivered before it reported
    [readErr] (or the end of the file). *)
Definition Scanner (data : gostring) (readErr : option error)
  : list gostring * option error :=
  let (tokens, err) := scanTokens (scanPieces (Split data)) in
  (tokens, match err with Some e => Some e | None => readErr end).

(** ** The outside world and the programs' effects *)

Inductive event :=
| Stdout (text : gostring)                      (* written to standard output *)
| Created (path : gostring)                     (* the file exists, empty *)
| Written (path : gostring) (content : gostring). (* the content is in the file *)

Record world := {
  dialog_Load : gostring * option error;   (* the file picker *)
  os_Open : gostring -> option error;
  file_data : gostring -> gostring;        (* what reading the file delivers *)
  file_readErr : gostring -> option error; (* the error that ends the reading *)
  os_Create : gostring -> option error;
  file_writeErr : gostring -> option error (* the write or the flush fails *)
}.

(** A process ends when [main] returns or when it calls [os.Exit]. *)
Inductive outcome (A : Type) :=
| Returned (a : A)
| Exited (code : Z).

Arguments Returned {A} a.
Arguments Exited {A} code.

Definition IO (A : Type) : Type := list event -> outcome A * list event.

Definition ret {A} (a : A) : IO A := fun tr => (Returned a, tr).

Definition bind {A B} (m : IO A) (k : A -> IO B) : IO B :=
  fun tr =>
    match m tr with
    | (Returned a, tr') => k a tr'
    | (Exited c, tr') => (Exited c, tr')
    end.

Definition emit (e : event) : IO unit := fun tr => (Returned tt, tr ++ [e]).

Definition os_Exit {A} (code : Z) : IO A := fun tr => (Exited code, tr).

Notation "m ;; k" := (bind m (fun _ => k))
  (at level 61, right associativity).
Notation "x <- m ;; k" := (bind m (fun x => k))
  (at level 61, m at next level, right associativity).

(** [fmt.Printf] and [fmt.Println], with the arguments already formatted. *)
Definition fmt_Printf (parts : list gostring) : IO unit :=
  emit (Stdout (concat parts)).

Fixpoint spaced (parts : list gostring) : gostring :=
  match parts with
  | [] => []
  | [p] => p
  | p :: rest => p ++ 32 :: spaced rest
  end.

Definition fmt_Println (parts : list gostring) : IO unit :=
  emit (Stdout (spaced parts ++ [NL])).

(** The exit status of the process: 0 when [main] returns. *)
Definition exit_code {A} (r : outcome A * list event) : Z :=
  match fst r with
  | Returned _ => 0
  | Exited c => c
  end.

Definition trace {A} (r : outcome A * list event) : list event := snd r.

Definition run {A} (m : IO A) : outcome A * list event := m [].

(** ** main.go *)

(** [writeCleanedContent]: the error it returns. *)
Definition writeCleanedContent (w : world) (content filePath : gostring)
  : IO (option error) :=
  let cleanContent := removeEmptyLines content in
  match os_Create w filePath with
  | Some err => ret (Some err)
  | None =>
      emit (Created filePath) ;;
      match file_writeErr w filePath with
      | Some err => ret (Some err)
      | None => emit (Written filePath cleanContent) ;; ret None
      end
  end.

Record sentences := {
  chineseSentences : list gostring;
  englishSentences : list gostring;
  combinedSentences : list gostring
}.

(** The body of the reading loop, for one line. *)
Definition scanLine (acc : sentences) (line : gostring) : sentences :=
  let chineseMatches := FindAllString chineseClass line in
  let acc1 :=
    fold_left (fun a sentence =>
                 {| chineseSentences := chineseSentences a ++ [sentence];
                    englishSentences := englishSentences a;
                    combinedSentences := combinedSentences a ++ [sentence] |})
              chineseMatches acc in
  let englishMatches := FindAllString englishClass line in
  fold_left (fun a sentence =>
               {| chineseSentences := chineseSentences a;
                  englishSentences := englishSentences a ++ [sentence];
                  combinedSentences := combinedSentences a ++ [sentence] |})
            englishMatches acc1.

(** The reading loop, over the lines of the scanner. *)
Definition extract (lines : list gostring) : sentences :=
  fold_left scanLine lines
    {| chineseSentences := []; englishSentences := [];
       combinedSentences := [] |}.

(** What [main] hands to [writeCleanedContent] for a list of sentences. *)
Definition prepared (sentences : list gostring) : gostring :=
  removePunctuationOnlyLines (splitAfterPunctuation (joinLines sentences)).

(** The content of the output file of a list of sentences. *)
Definition output (sentences : list gostring) : gostring :=
  removeEmptyLines (prepared sentences).

Definition pureChineseSentencesFile := str "pure_chinese_sentences.txt".
Definition pureEnglishSentencesFile := str "pure_english_sentences.txt".
Definition combinedSentencesFile := str "combined_sentences.txt".

Definition main (w : world) : IO unit :=
  fmt_Println [str "Select the input file:"] ;;
  let (inputFile, err) := dialog_Load w in
  match err with
  | Some e => fmt_Printf [str "Error selecting input file: "; Error e; [NL]]
  | None =>
  match inputFile with
  | [] => fmt_Println [str "No input file selected."]
  | _ =>
  fmt_Printf [str "Selected input file: "; inputFile; [NL]] ;;
  match os_Open w inputFile with
  | Some e => fmt_Printf [str "Error opening input file: "; Error e; [NL]]
  | None =>
  let (lines, scanErr) :=
    Scanner (file_data w inputFile) (file_readErr w inputFile) in
  let s := extract lines in
  match scanErr with
  | Some e => fmt_Printf [str "Error reading input file: "; Error e; [NL]]
  | None =>
  err <- writeCleanedContent w (prepared (chineseSentences s))
           pureChineseSentencesFile ;;
  match err with
  | Some e =>
      fmt_Printf [str "Error writing to Chinese sentences file: "; Error e; [NL]]
  | None =>
  err <- writeCleanedContent w (prepared (englishSentences s))
           pureEnglishSentencesFile ;;
  match err with
  | Some e =>
      fmt_Printf [str "Error writing to English sentences file: "; Error e; [NL]]
  | None =>
  err <- writeCleanedContent w (prepared (combinedSentences s))
           combinedSentencesFile ;;
  match err with
  | Some e =>
      fmt_Printf [str "Error writing to Combined sentences file: "; Error e; [NL]]
  | None =>
      fmt_Println [str "All output files written and cleaned successfully!"]
  end end end end end end end.

(** ** The [path/filepath] package, with [/] as the separator *)

Definition Separator : rune := 47.
Definition IsPathSeparator (c : rune) : bool := c =? Separator.
Definition notSeparator (c : rune) : bool := negb (IsPathSeparator c).

Definition dot : gostring := str ".".
Definition dotdot : gostring := str "..".

(** The loop of [Clean], one path element at a time; [out] holds the
    elements written so far, the last one first. *)
Fixpoint cleanLoop (rooted : bool) (out elems : list gostring)
  : list gostring :=
  match elems with
  | [] => rev out
  | e :: rest =>
      if gostring_eqb e [] || gostring_eqb e dot then
        cleanLoop rooted out rest
      else if gostring_eqb e dotdot then
        match out with
        | top :: out' =>
            if gostring_eqb top dotdot then cleanLoop rooted (e :: out) rest
            else cleanLoop rooted out' rest
        | [] =>
            if rooted then cleanLoop rooted [] rest
            else cleanLoop rooted [e] rest
        end
      else cleanLoop rooted (e :: out) rest
  end.

(** The buffer [Clean] returns for the elements it kept. *)
Definition cleaned (rooted : bool) (out : list gostring) : gostring :=
  match rooted, out with
  | true, _ => Separator :: joinWith Separator out
  | false, [] => dot
  | false, _ => joinWith Separator out
  end.

Definition Clean (path : gostring) : gostring :=
  match path with
  | [] => dot
  | c :: _ =>
      let rooted := IsPathSeparator c in
      cleaned rooted (cleanLoop rooted [] (splitOn Separator path))
  end.

Definition Dir (path : gostring) : gostring :=
  Clean (rev (dropWhile notSeparator (rev path))).

Definition Base (path : gostring) : gostring :=
  match path with
  | [] => dot
  | _ =>
      let stripped := dropWhile IsPathSeparator (rev path) in
      match rev (takeWhile notSeparator stripped) with
      | [] => [Separator]
      | elem => elem
      end
  end.

(** The loop of [Ext], from the end of the path; [suffix] is what was
    read. *)
Fixpoint extLoop (reversed suffix : gostring) : gostring :=
  match reversed with
  | [] => []
  | c :: r =>
      if IsPathSeparator c then []
      else if c =? 46 then c :: suffix
      else extLoop r (c :: suffix)
  end.

Definition Ext (path : gostring) : gostring := extLoop (rev path) [].

(** [filepath.Join] of two elements. *)
Definition filepath_Join (a b : gostring) : gostring :=
  match a, b with
  | [], [] => []
  | [], _ => Clean b
  | _, _ => Clean (a ++ Separator :: b)
  end.

(** ** The sibling program *)

Definition os_ReadFile (w : world) (path : gostring) : gostring + error :=
  match os_Open w path with
  | Some e => inr e
  | None =>
      match file_readErr w path with
      | Some e => inr e
      | None => inl (file_data w path)
      end
  end.

Definition os_WriteFile (w : world) (path data : gostring)
  : IO (option error) :=
  match os_Create w path with
  | Some e => ret (Some e)
  | None =>
      emit (Created path) ;;
      match file_writeErr w path with
      | Some e => ret (Some e)
      | None => emit (Written path data) ;; ret None
      end
  end.

Definition outputFilePath (inputFilePath : gostring) : gostring :=
  let fileDir := Dir inputFilePath in
  let fileName := TrimSuffix (Base inputFilePath) (Ext inputFilePath) in
  filepath_Join fileDir (fileName ++ str "_sc" ++ Ext inputFilePath).

Definition insertNewlines (content : gostring) : gostring :=
  ReplaceAllString chinesePunctuationClass content.

(** The loop that removes the empty lines, over the tokens of a scanner. *)
Fixpoint cleanedLines (tokens : list gostring) : list gostring :=
  match tokens with
  | [] => []
  | t :: rest =>
      let line := TrimSpace t in
      match line with
      | [] => cleanedLines rest
      | _ => line :: cleanedLines rest
      end
  end.

Definition sibling_main (w : world) : IO unit :=
  let (inputFilePath, err) := dialog_Load w in
  match err with
  | Some e =>
      if isCancelled e then fmt_Println [str "File selection was cancelled."]
      else fmt_Println [str "Error selecting input file:"; Error e]
  | None =>
  fmt_Println [str "Selected input file:"; inputFilePath] ;;
  match os_ReadFile w inputFilePath with
  | inr e => fmt_Println [str "Error reading input file:"; Error e]
  | inl inputFileContent =>
  let processedContent := insertNewlines inputFileContent in
  let (tokens, scanErr) := Scanner processedContent None in
  match scanErr with
  | Some e => fmt_Println [str "Error while removing empty lines:"; Error e]
  | None =>
  let cleanedContent := Join (cleanedLines tokens) in
  err <- os_WriteFile w (outputFilePath inputFilePath) cleanedContent ;;
  match err with
  | Some e => fmt_Println [str "Error writing to output file:"; Error e]
  | None =>
      fmt_Printf
        [str "Processed file with empty lines removed has been saved to: ";
         outputFilePath inputFilePath; [NL]]
  end end end end.

(** ** Notions the properties are stated with *)

(** The cleaner of the pipeline: the punctuation-only filter, then the
    empty-line filter. *)
Definition cleaner (content : gostring) : gostring :=
  removeEmptyLines (removePunctuationOnlyLines content).

(** The lines of a file: an empty file has none. *)
Definition linesOf (content : gostring) : list gostring :=
  match content with
  | [] => []
  | _ => Split content
  end.

(** The number of lines of a buffer, as [strings.Split] counts them. *)
Definition lineCount (content : gostring) : nat := List.length (Split content).

(** The first character, when there is one, is not of the class. *)
Definition headFails (p : rune -> bool) (s : gostring) : Prop :=
  match s with
  | [] => True
  | c :: _ => p c = false
  end.

(** A line without leading or trailing white space. *)
Definition startsClean (s : gostring) : Prop := headFails IsSpace s.

Definition trimmed (s : gostring) : Prop :=
  startsClean s /\ startsClean (rev s).

(** A line made, from end to end, of one or more characters of the
    punctuation-only class. *)
Definition punctuationOnly (s : gostring) : Prop :=
  s <> [] /\ Forall (fun c => punctuationOnlyClass c = true) s.

(** A string without the separator. *)
Definition sepFree (sep : rune) (s : gostring) : Prop :=
  Forall (fun c => c <> sep) s.

(** A surviving line: not empty, trimmed and without a newline inside. *)
Definition survivor (l : gostring) : Prop :=
  l <> [] /\ trimmed l /\ sepFree NL l.

(** [content] ends with a line terminator. *)
Definition endsWithNewline (content : gostring) : Prop :=
  exists before, content = before ++ [NL].

(** [t] is [s] with a newline inserted after every character of the class
    and nothing else changed. *)
Inductive InsertedAfter (cls : rune -> bool) : gostring -> gostring -> Prop :=
| ins_nil : InsertedAfter cls [] []
| ins_hit c s t :
    cls c = true -> InsertedAfter cls s t ->
    InsertedAfter cls (c :: s) (c :: NL :: t)
| ins_miss c s t :
    cls c = false -> InsertedAfter cls s t ->
    InsertedAfter cls (c :: s) (c :: t).

(** The splitter-punctuation set as the specification lists it:
    ︱ | 丨 ， , 。 . ? ？ / \ 、 ： ; ； : — — … … then the straight quote
    U+0022 twice, ！ and !. *)
Definition listedSplitterChars : list rune :=
  [ 65073; 124; 20008; 65292; 44; 12290; 46; 63; 65311; 47; 92; 12289;
    65306; 59; 65307; 58; 8212; 8212; 8230; 8230; 34; 34; 65281; 33 ].

(** [s] is a subsequence of [l]. *)
Inductive Subseq : gostring -> gostring -> Prop :=
| sub_nil : Subseq [] []
| sub_keep c s l : Subseq s l -> Subseq (c :: s) (c :: l)
| sub_skip c s l : Subseq s l -> Subseq s (c :: l).

(** [segs] are the maximal non-empty runs of characters of the class in
    [l], from left to right: [l] is read as characters outside the class,
    each skipped, and runs, each followed by the end of [l] or by a
    character outside the class. *)
Inductive MaximalRuns (cls : rune -> bool)
  : gostring -> list gostring -> Prop :=
| runs_end : MaximalRuns cls [] []
| runs_skip c l segs :
    cls c = false -> MaximalRuns cls l segs ->
    MaximalRuns cls (c :: l) segs
| runs_last seg :
    seg <> [] -> forallb cls seg = true ->
    MaximalRuns cls seg [seg]
| runs_seg seg c l segs :
    seg <> [] -> forallb cls seg = true -> cls c = false ->
    MaximalRuns cls l segs ->
    MaximalRuns cls (seg ++ c :: l) (seg :: segs).

(** A path element that names a file: not empty, without separator, and
    neither [.] nor [..]. *)
Definition plainName (name : gostring) : Prop :=
  name <> [] /\ forallb notSeparator name = true
  /\ name <> dot /\ name <> dotdot.

(** The lines the reading loop of [main] sees. *)
Definition inputLines (w : world) : list gostring :=
  fst (Scanner (file_data w (fst (dialog_Load w)))
               (file_readErr w (fst (dialog_Load w)))).

(** A world where nothing fails: the picker returns [path], and the file
    holds [data]. *)
Definition quietWorld (path data : gostring) : world :=
  {| dialog_Load := (path, None);
     os_Open := fun _ => None;
     file_data := fun _ => data;
     file_readErr := fun _ => None;
     os_Create := fun _ => None;
     file_writeErr := fun _ => None |}.

(** The line [Hello, 世界！How are you?]. *)
Definition helloLine : gostring :=
  str "Hello, " ++ [19990; 30028; 65281] ++ str "How are you?".

(** What a run printed, in order, and the last of it. *)
Fixpoint printed (tr : list event) : list gostring :=
  match tr with
  | [] => []
  | Stdout text :: rest => text :: printed rest
  | _ :: rest => printed rest
  end.

Definition lastPrinted (tr : list event) : option gostring :=
  last (map Some (printed tr)) None.

(** The error of writing one output file: of its creation, or else of the
    write. *)
Definition writeError (w : world) (path : gostring) : option error :=
  match os_Create w path with
  | Some e => Some e
  | None => file_writeErr w path
  end.

(** The first error a run of [main] meets in the world [w], with the stage
    it occurs at: the picker, the opening of the input, its reading, then
    the three output files in turn. *)
Definition firstError (w : world) : option (gostring * error) :=
  let inputFile := fst (dialog_Load w) in
  match snd (dialog_Load w) with
  | Some e => Some (str "selecting input file", e)
  | None =>
  match inputFile with
  | [] => None
  | _ =>
  match os_Open w inputFile with
  | Some e => Some (str "opening input file", e)
  | None =>
  match snd (Scanner (file_data w inputFile) (file_readErr w inputFile)) with
  | Some e => Some (str "reading input file", e)
  | None =>
  match writeError w pureChineseSentencesFile with
  | Some e => Some (str "writing to Chinese sentences file", e)
  | None =>
  match writeError w pureEnglishSentencesFile with
  | Some e => Some (str "writing to English sentences file", e)
  | None =>
  match writeError w combinedSentencesFile with
  | Some e => Some (str "writing to Combined sentences file", e)
  | None => None
  end end end end end end end.

(** A world where the input file cannot be opened. *)
Definition noSuchFile : error :=
  ErrOS (str "open in.txt: no such file or directory").

Definition missingInputWorld : world :=
  {| dialog_Load := (str "in.txt", None);
     os_Open := fun _ => Some noSuchFile;
     file_data := fun _ => [];
     file_readErr := fun _ => None;
     os_Create := fun _ => None;
     file_writeErr := fun _ => None |}.

(** The stacks of path elements the loop of [Clean] builds, the last
    element first: names, above [..] elements only when the path is not
    rooted. *)
Inductive okStack (rooted : bool) : list gostring -> Prop :=
| ok_nil : okStack rooted []
| ok_dotdot out :
    rooted = false -> Forall (eq dotdot) out ->
    okStack rooted (dotdot :: out)
| ok_plain name out :
    plainName name -> okStack rooted out -> okStack rooted (name :: out).

(** What precedes the last element in the buffer [cleaned] returns. *)
Definition dirPrefix (rooted : bool) (st : list gostring) : gostring :=
  (if rooted then [Separator] else [])
  ++ match st with
     | [] => []
     | _ => joinWith Separator st ++ [Separator]
     end.

(** The sentences [第一句。] and [第二句！]. *)
Definition firstSentence : gostring := [31532; 19968; 21477; 12290].
Definition secondSentence : gostring := [31532; 20108; 21477; 65281].

(** ** Notions of the further properties *)

(** No character of [s] is of the class. *)
Definition outside (cls : rune -> bool) (s : gostring) : bool :=
  forallb (fun c => negb (cls c)) s.

(** The text without its newlines. *)
Definition removeNewlines (s : gostring) : gostring :=
  filter (fun c => negb (c =? NL)) s.

(** A character of the class can only be the last one of [l]. *)
Definition lastOnly (cls : rune -> bool) (l : gostring) : Prop :=
  forall before c after,
    l = before ++ c :: after -> cls c = true -> after = [].

(** An event that only prints. *)
Definition onlyPrints (e : event) : Prop :=
  match e with
  | Stdout _ => True
  | _ => False
  end.

(** The paths of the files a run wrote, in order. *)
Fixpoint writtenPaths (tr : list event) : list gostring :=
  match tr with
  | [] => []
  | Written path _ :: rest => path :: writtenPaths rest
  | _ :: rest => writtenPaths rest
  end.

(** The path of the file an event creates or writes. *)
Definition touchedPath (e : event) : option gostring :=
  match e with
  | Stdout _ => None
  | Created path => Some path
  | Written path _ => Some path
  end.

(** A character of a file name that is neither the separator nor the
    dot. *)
Definition plainChar (c : rune) : bool := notSeparator c && negb (c =? 46).

(** A piece the buffer of the scanner cannot hold. *)
Definition tooLong (piece : gostring) : Prop :=
  MaxScanTokenSize <= byteLen piece.

(** A line of 65536 letters [a]. *)
Definition longLine : gostring := repeat 97 (Z.to_nat MaxScanTokenSize).

(** ** Notions of the properties on the lines the scanner can hold *)

(** Every piece the scanner cuts the text into fits its buffer. *)
Definition linesFit (text : gostring) : Prop :=
  Forall (fun piece => byteLen piece < MaxScanTokenSize)
         (scanPieces (Split text)).

(** A line the empty-line filter drops. *)
Definition blank (line : gostring) : Prop := TrimSpace line = [].

(** A line the two filters of [main] drop. *)
Definition dropped (line : gostring) : Prop :=
  blank line \/ punctuationOnly (TrimSpace line).

(** The files of [main] and the sentences each is made from. *)
Definition mainFiles (w : world) : list (gostring * list gostring) :=
  [ (pureChineseSentencesFile, chineseSentences (extract (inputLines w)));
    (pureEnglishSentencesFile, englishSentences (extract (inputLines w)));
    (combinedSentencesFile, combinedSentences (extract (inputLines w))) ].

(** A line of 65536 spaces. *)
Definition longBlank : gostring := repeat 32 (Z.to_nat MaxScanTokenSize).

(** * Properties *)

(** ** Splitting and joining *)

Section SplitJoin.
Variable sep : rune.

Lemma splitOn_not_nil (s : gostring) : splitOn sep s <> [].
Proof.
  destruct s as [|c s]; simpl; [discriminate|].
  destruct (c =? sep); [discriminate|].
  destruct (splitOn sep s); discriminate.
Qed.

Lemma splitOn_cons_other (c : rune) (s : gostring) :
  c <> sep ->
  exists l ls, splitOn sep s = l :: ls
               /\ splitOn sep (c :: s) = (c :: l) :: ls.
Proof.
  intros Hc. simpl. apply Z.eqb_neq in Hc. rewrite Hc.
  destruct (splitOn sep s) as [|l ls] eqn:E.
  - exfalso. now apply (splitOn_not_nil s).
  - now exists l, ls.
Qed.

Lemma splitOn_free (s : gostring) : sepFree sep s -> splitOn sep s = [s].
Proof.
  induction 1 as [|c s Hc _ IH]; [reflexivity|].
  destruct (splitOn_cons_other c s Hc) as (l & ls & E1 & E2).
  rewrite E2. rewrite IH in E1. now inversion E1.
Qed.

Lemma splitOn_app (a b : gostring) :
  sepFree sep a -> splitOn sep (a ++ sep :: b) = a :: splitOn sep b.
Proof.
  induction 1 as [|c a Hc _ IH]; simpl.
  - now rewrite Z.eqb_refl.
  - apply Z.eqb_neq in Hc. rewrite Hc, IH. reflexivity.
Qed.

Lemma joinWith_cons (l : gostring) (ls : list gostring) :
  ls <> [] -> joinWith sep (l :: ls) = l ++ sep :: joinWith sep ls.
Proof. destruct ls; [congruence | reflexivity]. Qed.

Lemma joinWith_splitOn (s : gostring) : joinWith sep (splitOn sep s) = s.
Proof.
  induction s as [|c s IH]; [reflexivity|].
  simpl. destruct (c =? sep) eqn:E.
  - apply Z.eqb_eq in E. subst c.
    rewrite joinWith_cons by apply splitOn_not_nil.
    simpl. now rewrite IH.
  - destruct (splitOn sep s) as [|l ls] eqn:E'.
    + exfalso. now apply (splitOn_not_nil s).
    + rewrite <- IH. now destruct ls.
Qed.

Lemma splitOn_joinWith (ls : list gostring) :
  ls <> [] -> Forall (sepFree sep) ls -> splitOn sep (joinWith sep ls) = ls.
Proof.
  intros Hne H. induction H as [|l ls Hl Hls IH]; [congruence|].
  destruct ls as [|l' ls].
  - simpl. now apply splitOn_free.
  - rewrite joinWith_cons by discriminate.
    rewrite splitOn_app by assumption.
    rewrite IH by discriminate. reflexivity.
Qed.

Lemma splitOn_all_free (s : gostring) : Forall (sepFree sep) (splitOn sep s).
Proof.
  induction s as [|c s IH]; simpl.
  - repeat constructor.
  - destruct (c =? sep) eqn:E.
    + constructor; [constructor | assumption].
    + destruct (splitOn sep s) as [|l ls]; [repeat constructor|].
      * now apply Z.eqb_neq.
      * inversion IH; subst. constructor; [|assumption].
        constructor; [now apply Z.eqb_neq | assumption].
Qed.

Lemma joinWith_app (xs ys : list gostring) :
  xs <> [] -> ys <> [] ->
  joinWith sep (xs ++ ys) = joinWith sep xs ++ sep :: joinWith sep ys.
Proof.
  intros Hx Hy. induction xs as [|x xs IH]; [congruence|].
  destruct xs as [|x' xs].
  - simpl app. now rewrite joinWith_cons.
  - change ((x :: x' :: xs) ++ ys) with (x :: (x' :: xs) ++ ys).
    rewrite joinWith_cons by discriminate.
    rewrite IH by discriminate.
    rewrite (joinWith_cons x (x' :: xs)) by discriminate.
    now rewrite <- app_assoc.
Qed.

Lemma splitOn_app_general (a b : gostring) :
  splitOn sep (a ++ sep :: b) = splitOn sep a ++ splitOn sep b.
Proof.
  induction a as [|c a IH]; simpl.
  - now rewrite Z.eqb_refl.
  - destruct (c =? sep); [now rewrite IH|].
    rewrite IH.
    destruct (splitOn sep a) as [|l ls] eqn:E; [|reflexivity].
    exfalso. now apply (splitOn_not_nil a).
Qed.
End SplitJoin.

(** ** Trimming *)

Section Trimming.
Variable p : rune -> bool.

Lemma takeWhile_dropWhile (s : gostring) :
  takeWhile p s ++ dropWhile p s = s.
Proof.
  induction s as [|c s IH]; [reflexivity|].
  simpl. destruct (p c); simpl; [now rewrite IH | reflexivity].
Qed.

Lemma takeWhile_all (s : gostring) : forallb p (takeWhile p s) = true.
Proof.
  induction s as [|c s IH]; [reflexivity|].
  simpl. destruct (p c) eqn:E; simpl; [now rewrite E | reflexivity].
Qed.

Lemma dropWhile_headFails (s : gostring) : headFails p (dropWhile p s).
Proof.
  induction s as [|c s IH]; simpl; [exact I|].
  destruct (p c) eqn:E; [assumption | exact E].
Qed.

Lemma dropWhile_fixed (s : gostring) : headFails p s -> dropWhile p s = s.
Proof. destruct s as [|c s]; simpl; [reflexivity|]. now intros ->. Qed.

Lemma dropWhile_incl (s : gostring) (c : rune) :
  In c (dropWhile p s) -> In c s.
Proof.
  induction s as [|d s IH]; simpl; [tauto|].
  destruct (p d); simpl; auto.
Qed.

Lemma takeWhile_incl (s : gostring) (c : rune) :
  In c (takeWhile p s) -> In c s.
Proof.
  induction s as [|d s IH]; simpl; [tauto|].
  destruct (p d); simpl; [|tauto]. intros [H|H]; auto.
Qed.

Lemma takeWhile_app_stop (a b : gostring) (c : rune) :
  forallb p a = true -> p c = false -> takeWhile p (a ++ c :: b) = a.
Proof.
  induction a as [|d a IH]; simpl; intros Ha Hc.
  - now rewrite Hc.
  - apply andb_true_iff in Ha as [Hd Ha]. rewrite Hd. f_equal. auto.
Qed.

Lemma dropWhile_app_stop (a b : gostring) (c : rune) :
  forallb p a = true -> p c = false -> dropWhile p (a ++ c :: b) = c :: b.
Proof.
  induction a as [|d a IH]; simpl; intros Ha Hc.
  - now rewrite Hc.
  - apply andb_true_iff in Ha as [Hd Ha]. rewrite Hd. auto.
Qed.

Lemma takeWhile_all_id (a : gostring) :
  forallb p a = true -> takeWhile p a = a.
Proof.
  induction a as [|d a IH]; simpl; [reflexivity|]. intros Ha.
  apply andb_true_iff in Ha as [Hd Ha]. rewrite Hd. f_equal. auto.
Qed.

Lemma dropWhile_all_nil (a : gostring) :
  forallb p a = true -> dropWhile p a = [].
Proof.
  induction a as [|d a IH]; simpl; [reflexivity|]. intros Ha.
  apply andb_true_iff in Ha as [Hd Ha]. rewrite Hd. auto.
Qed.

(** What [TrimRightFunc] keeps is a prefix, with the same first
    character. *)
Lemma TrimRightFunc_headFails (q : rune -> bool) (s : gostring) :
  headFails q s -> headFails q (TrimRightFunc p s).
Proof.
  unfold TrimRightFunc. intros H.
  pose proof (takeWhile_dropWhile (rev s)) as E.
  apply (f_equal (@rev rune)) in E.
  rewrite rev_app_distr, rev_involutive in E.
  destruct (rev (dropWhile p (rev s))) as [|c t]; [exact I|].
  rewrite <- E in H. exact H.
Qed.
End Trimming.

Lemma TrimSpace_trimmed (s : gostring) : trimmed (TrimSpace s).
Proof.
  unfold trimmed, startsClean, TrimSpace. split.
  - apply TrimRightFunc_headFails. apply dropWhile_headFails.
  - unfold TrimRightFunc. rewrite rev_involutive. apply dropWhile_headFails.
Qed.

Lemma trimmed_TrimSpace (s : gostring) : trimmed s -> TrimSpace s = s.
Proof.
  intros [H1 H2]. unfold TrimSpace, TrimRightFunc, TrimLeftFunc.
  rewrite (dropWhile_fixed _ s H1), (dropWhile_fixed _ (rev s) H2).
  apply rev_involutive.
Qed.

Lemma TrimSpace_idempotent (s : gostring) :
  TrimSpace (TrimSpace s) = TrimSpace s.
Proof. apply trimmed_TrimSpace, TrimSpace_trimmed. Qed.

Lemma TrimSpace_incl (s : gostring) (c : rune) :
  In c (TrimSpace s) -> In c s.
Proof.
  unfold TrimSpace, TrimRightFunc, TrimLeftFunc. intros H.
  apply in_rev, dropWhile_incl, in_rev, dropWhile_incl in H. exact H.
Qed.

Lemma TrimSpace_sepFree (sep : rune) (s : gostring) :
  sepFree sep s -> sepFree sep (TrimSpace s).
Proof.
  unfold sepFree. rewrite !Forall_forall. intros H c Hc.
  apply H, TrimSpace_incl, Hc.
Qed.

Lemma trimmed_last_not_NL (s : gostring) :
  trimmed s -> last s 0 <> NL.
Proof.
  intros [_ H]. unfold startsClean in H.
  destruct (rev s) as [|c r] eqn:E.
  - apply (f_equal (@rev rune)) in E. rewrite rev_involutive in E.
    subst s. discriminate.
  - apply (f_equal (@rev rune)) in E. rewrite rev_involutive in E.
    subst s. simpl. rewrite last_last. simpl in H.
    intros ->. discriminate.
Qed.

(** ** The two filters *)

Lemma MatchString_iff (cls : rune -> bool) (s : gostring) :
  MatchString cls s = true
  <-> s <> [] /\ Forall (fun c => cls c = true) s.
Proof.
  destruct s as [|c s].
  - simpl. split; [discriminate | intros [H _]; congruence].
  - unfold MatchString. rewrite forallb_forall, Forall_forall.
    split; [intros H; split; [discriminate | exact H] | intros [_ H]; exact H].
Qed.

Lemma MatchString_punctuationOnly (s : gostring) :
  MatchString punctuationOnlyClass s = true <-> punctuationOnly s.
Proof. apply MatchString_iff. Qed.

Lemma nonEmptyLines_survivors (lines : list gostring) :
  Forall (sepFree NL) lines -> Forall survivor (nonEmptyLines lines).
Proof.
  induction 1 as [|l ls Hl _ IH]; simpl; [constructor|].
  destruct (TrimSpace l) as [|c t] eqn:E; [assumption|].
  constructor; [|assumption]. rewrite <- E. repeat split.
  - rewrite E. discriminate.
  - apply TrimSpace_trimmed.
  - apply TrimSpace_trimmed.
  - now apply TrimSpace_sepFree.
Qed.

Lemma nonEmptyLines_fixed (lines : list gostring) :
  Forall survivor lines -> nonEmptyLines lines = lines.
Proof.
  induction 1 as [|l ls (Hne & Ht & _) _ IH]; simpl; [reflexivity|].
  rewrite (trimmed_TrimSpace l Ht), IH. destruct l; congruence.
Qed.

Lemma nonPunctuationLines_kept (lines : list gostring) :
  Forall (sepFree NL) lines ->
  Forall (fun l => survivor l /\ ~ punctuationOnly l)
         (nonPunctuationLines lines).
Proof.
  induction 1 as [|l ls Hl _ IH]; [constructor|].
  cbn [nonPunctuationLines].
  destruct (TrimSpace l) as [|c t] eqn:E; [assumption|].
  destruct (MatchString punctuationOnlyClass (c :: t)) eqn:M;
    [assumption|].
  cbn [negb andb].
  constructor; [|assumption]. rewrite <- E. split; [repeat split|].
  - rewrite E. discriminate.
  - apply TrimSpace_trimmed.
  - apply TrimSpace_trimmed.
  - now apply TrimSpace_sepFree.
  - rewrite E. intros HP. apply MatchString_punctuationOnly in HP.
    congruence.
Qed.

Lemma nonPunctuationLines_fixed (lines : list gostring) :
  Forall (fun l => survivor l /\ ~ punctuationOnly l) lines ->
  nonPunctuationLines lines = lines.
Proof.
  induction 1 as [|l ls ((Hne & Ht & _) & Hp) _ IH]; [reflexivity|].
  cbn [nonPunctuationLines].
  rewrite (trimmed_TrimSpace l Ht), IH.
  destruct (MatchString punctuationOnlyClass l) eqn:M.
  - exfalso. now apply Hp, MatchString_punctuationOnly.
  - destruct l; [congruence | reflexivity].
Qed.

(** Splitting a text made of surviving lines gives the lines back, but
    for the empty text, which splits into one empty line. *)
Lemma Split_Join_survivors (lines : list gostring) :
  Forall survivor lines ->
  lines <> [] -> Split (Join lines) = lines.
Proof.
  intros H Hne. apply splitOn_joinWith; [assumption|].
  eapply Forall_impl; [|exact H]. now intros l (_ & _ & Hf).
Qed.

Lemma Join_survivors_nil (lines : list gostring) :
  Forall survivor lines -> Join lines = [] -> lines = [].
Proof.
  intros H E. destruct H as [|l ls (Hne & _) _]; [reflexivity|].
  exfalso. unfold Join in E. destruct ls; simpl in E.
  - congruence.
  - destruct l; [congruence | discriminate].
Qed.

Lemma linesOf_Join_survivors (lines : list gostring) :
  Forall survivor lines -> linesOf (Join lines) = lines.
Proof.
  intros H. unfold linesOf.
  destruct (Join lines) as [|c t] eqn:E.
  - symmetry. now apply Join_survivors_nil.
  - rewrite <- E. apply Split_Join_survivors; [assumption|].
    intros ->. discriminate.
Qed.

Lemma removeEmptyLines_Join_survivors (lines : list gostring) :
  Forall survivor lines -> removeEmptyLines (Join lines) = Join lines.
Proof.
  intros H. unfold removeEmptyLines. destruct lines as [|l ls].
  - reflexivity.
  - rewrite Split_Join_survivors by (assumption || discriminate).
    now rewrite nonEmptyLines_fixed.
Qed.

Lemma removePunctuationOnlyLines_Join_kept (lines : list gostring) :
  Forall (fun l => survivor l /\ ~ punctuationOnly l) lines ->
  removePunctuationOnlyLines (Join lines) = Join lines.
Proof.
  intros H. unfold removePunctuationOnlyLines. destruct lines as [|l ls].
  - reflexivity.
  - rewrite Split_Join_survivors.
    + now rewrite nonPunctuationLines_fixed.
    + eapply Forall_impl; [|exact H]. now intros ? [? _].
    + discriminate.
Qed.

(** After the punctuation-only filter the empty-line filter changes
    nothing. *)
Lemma cleaner_is_punctuation_filter (content : gostring) :
  cleaner content = removePunctuationOnlyLines content.
Proof.
  unfold cleaner, removePunctuationOnlyLines.
  apply removeEmptyLines_Join_survivors.
  eapply Forall_impl;
    [|apply nonPunctuationLines_kept, splitOn_all_free].
  now intros ? [? _].
Qed.

Lemma last_app_right (a b : gostring) (d : rune) :
  b <> [] -> last (a ++ b) d = last b d.
Proof.
  intros Hb. induction a as [|x a IH]; [reflexivity|].
  simpl. destruct (a ++ b) eqn:E; [|exact IH].
  apply app_eq_nil in E as [_ ->]. congruence.
Qed.

Lemma joinWith_ends_with_last (sep : rune) (lines : list gostring) :
  lines <> [] ->
  exists before, joinWith sep lines = before ++ last lines [].
Proof.
  induction lines as [|l ls IH]; [congruence|]. intros _.
  destruct ls as [|l' ls].
  - now exists [].
  - destruct IH as [b Hb]; [discriminate|].
    exists (l ++ sep :: b).
    rewrite joinWith_cons by discriminate. rewrite Hb.
    now rewrite <- app_assoc.
Qed.

Lemma Join_survivors_no_final_newline (lines : list gostring) :
  Forall survivor lines -> ~ endsWithNewline (Join lines).
Proof.
  intros H [before E]. destruct lines as [|l ls].
  - simpl in E. now destruct before.
  - destruct (joinWith_ends_with_last NL (l :: ls)) as [b Hb];
      [discriminate|].
    unfold Join in E. rewrite Hb in E.
    assert (Hs : survivor (last (l :: ls) [])).
    { rewrite Forall_forall in H. apply H.
      destruct (exists_last (l := l :: ls)) as (r & x & Ex); [discriminate|].
      rewrite Ex, last_last. apply in_or_app. right. now left. }
    destruct Hs as (Hne & Ht & _).
    apply (f_equal (fun s => last s 0)) in E.
    rewrite last_last, last_app_right in E by assumption.
    now apply (trimmed_last_not_NL _ Ht).
Qed.

(** ** What the programs write *)

Lemma output_survivors (ss : list gostring) :
  exists lines,
    output ss = Join lines
    /\ Forall (fun l => survivor l /\ ~ punctuationOnly l) lines.
Proof.
  exists (nonPunctuationLines (Split (splitAfterPunctuation (joinLines ss)))).
  split.
  - unfold output, prepared.
    apply (cleaner_is_punctuation_filter
             (splitAfterPunctuation (joinLines ss))).
  - apply nonPunctuationLines_kept, splitOn_all_free.
Qed.

Ltac world_cases w :=
  destruct (dialog_Load w) as [? [?|]]; cbn [fst snd];
  repeat match goal with
         | |- context [match ?x with [] => _ | _ :: _ => _ end] =>
             destruct x eqn:?
         | |- context [match os_Open ?a ?b with _ => _ end] =>
             destruct (os_Open a b) eqn:?
         | |- context [match os_Create ?a ?b with _ => _ end] =>
             destruct (os_Create a b) eqn:?
         | |- context [match file_writeErr ?a ?b with _ => _ end] =>
             destruct (file_writeErr a b) eqn:?
         | |- context [let (_, _) := Scanner ?a ?b in _] =>
             destruct (Scanner a b) as [? [?|]] eqn:?
         end.

(** The files [main] writes, and their contents. *)
Lemma main_written (w : world) (path content : gostring) :
  In (Written path content) (trace (run (main w))) ->
  content = output (chineseSentences (extract (inputLines w)))
  \/ content = output (englishSentences (extract (inputLines w)))
  \/ content = output (combinedSentences (extract (inputLines w))).
Proof.
  unfold inputLines, main, run, trace, writeCleanedContent, fmt_Printf,
    fmt_Println, bind, ret, emit, output.
  world_cases w; cbn [fst snd app In];
    intros H; decompose [or] H; try discriminate; try contradiction;
    match goal with
    | E : Written _ _ = Written _ _ |- _ => inversion E; subst; auto
    end.
Qed.

(** ** The scanner loop of the sibling program *)

Lemma dropWhile_app (p : rune -> bool) (a b : gostring) :
  dropWhile p (a ++ b)
  = if forallb p a then dropWhile p b else dropWhile p a ++ b.
Proof.
  induction a as [|c a IH]; [reflexivity|].
  simpl. destruct (p c); [exact IH | reflexivity].
Qed.

Lemma TrimSpace_snoc_space (a : gostring) (c : rune) :
  IsSpace c = true -> TrimSpace (a ++ [c]) = TrimSpace a.
Proof.
  intros Hc. unfold TrimSpace, TrimLeftFunc, TrimRightFunc.
  rewrite dropWhile_app. destruct (forallb IsSpace a) eqn:Ha.
  - simpl. rewrite Hc. now rewrite (dropWhile_all_nil _ _ Ha).
  - rewrite rev_app_distr. simpl. now rewrite Hc.
Qed.

Lemma TrimSpace_dropCR (l : gostring) : TrimSpace (dropCR l) = TrimSpace l.
Proof.
  unfold dropCR. destruct (rev l) as [|c r] eqn:E; [reflexivity|].
  destruct (c =? CR) eqn:Hc; [|reflexivity].
  apply Z.eqb_eq in Hc. subst c.
  apply (f_equal (@rev rune)) in E. rewrite rev_involutive in E.
  subst l. simpl. symmetry. now apply TrimSpace_snoc_space.
Qed.

Lemma scanTokens_ok (pieces tokens : list gostring) :
  scanTokens pieces = (tokens, None) -> tokens = map dropCR pieces.
Proof.
  revert tokens. induction pieces as [|p ps IH]; simpl; intros tokens H.
  - now inversion H.
  - destruct (MaxScanTokenSize <=? byteLen p); [discriminate|].
    destruct (scanTokens ps) as [ts e]. inversion H; subst.
    now rewrite (IH ts).
Qed.

Lemma cleanedLines_dropCR (pieces : list gostring) :
  cleanedLines (map dropCR pieces) = nonEmptyLines pieces.
Proof.
  induction pieces as [|p ps IH]; [reflexivity|].
  simpl. now rewrite TrimSpace_dropCR, IH.
Qed.

Lemma nonEmptyLines_scanPieces (pieces : list gostring) :
  nonEmptyLines (scanPieces pieces) = nonEmptyLines pieces.
Proof.
  induction pieces as [|p ps IH]; [reflexivity|].
  destruct ps as [|q ps].
  - destruct p; reflexivity.
  - change (scanPieces (p :: q :: ps)) with (p :: scanPieces (q :: ps)).
    cbn [nonEmptyLines]. now rewrite IH.
Qed.

(** When no line is too long, the loop over the scanner computes
    [removeEmptyLines]. *)
Lemma scanner_loop_removeEmptyLines (s : gostring) (tokens : list gostring) :
  Scanner s None = (tokens, None) ->
  Join (cleanedLines tokens) = removeEmptyLines s.
Proof.
  unfold Scanner, removeEmptyLines. intros H.
  destruct (scanTokens (scanPieces (Split s))) as [ts e] eqn:E.
  destruct e; inversion H; subst.
  apply scanTokens_ok in E. subst.
  now rewrite cleanedLines_dropCR, nonEmptyLines_scanPieces.
Qed.

(** The file the sibling program writes, and its content. *)
Lemma sibling_written (w : world) (path content : gostring) :
  In (Written path content) (trace (run (sibling_main w))) ->
  path = outputFilePath (fst (dialog_Load w))
  /\ content
     = removeEmptyLines (insertNewlines (file_data w (fst (dialog_Load w)))).
Proof.
  unfold sibling_main, run, trace, os_ReadFile, os_WriteFile, fmt_Printf,
    fmt_Println, bind, ret, emit.
  destruct (dialog_Load w) as [p [e|]]; cbn [fst snd].
  - destruct (isCancelled e); cbn; intuition discriminate.
  - destruct (os_Open w p); [cbn; intuition discriminate|].
    destruct (file_readErr w p); [cbn; intuition discriminate|].
    destruct (Scanner (insertNewlines (file_data w p)) None)
      as [tokens [e|]] eqn:ES; [cbn; intuition discriminate|].
    apply scanner_loop_removeEmptyLines in ES.
    destruct (os_Create w (outputFilePath p));
      [cbn; intuition discriminate|].
    destruct (file_writeErr w (outputFilePath p));
      cbn [fst snd app In]; intros H; decompose [or] H;
      try discriminate; try contradiction.
    match goal with
    | E : Written _ _ = Written _ _ |- _ => inversion E; subst
    end.
    now rewrite ES.
Qed.

Lemma removeEmptyLines_survivors (buffer : gostring) :
  Forall survivor (nonEmptyLines (Split buffer)).
Proof. apply nonEmptyLines_survivors, splitOn_all_free. Qed.

(** ** The emitted lines *)

(** C2.  Every line of every file [main] writes is not empty after
    trimming, has no leading and no trailing white space (trimming it
    changes nothing), and is not made from end to end of characters of the
    punctuation-only class. *)
Theorem emitted_lines_clean (w : world) (path content line : gostring) :
  In (Written path content) (trace (run (main w))) ->
  In line (linesOf content) ->
  TrimSpace line <> []
  /\ trimmed line /\ TrimSpace line = line
  /\ ~ punctuationOnly line.
Proof.
  intros Hw Hl.
  assert (Hs : exists ss, content = output ss).
  { apply main_written in Hw. decompose [or] Hw; eauto. }
  destruct Hs as [ss ->].
  destruct (output_survivors ss) as (lines & E & Hk).
  rewrite E, linesOf_Join_survivors in Hl.
  - rewrite Forall_forall in Hk.
    destruct (Hk line Hl) as ((Hne & Ht & _) & Hp).
    rewrite (trimmed_TrimSpace line Ht). auto.
  - eapply Forall_impl; [|exact Hk]. now intros ? [? _].
Qed.

(** The line [Hello,] of the English file written for [helloLine]. *)
Lemma emitted_lines_clean_witness :
  TrimSpace (str "Hello,") <> []
  /\ trimmed (str "Hello,") /\ TrimSpace (str "Hello,") = str "Hello,"
  /\ ~ punctuationOnly (str "Hello,").
Proof.
  apply (emitted_lines_clean (quietWorld (str "in.txt") helloLine)
           pureEnglishSentencesFile
           (str "Hello," ++ [NL] ++ str "How are you?")).
  - vm_compute. auto 20.
  - vm_compute. auto.
Defined.

(** C5.  The cleaner, the punctuation-only filter followed by the
    empty-line filter, is idempotent. *)
Theorem cleaner_idempotent (buffer : gostring) :
  cleaner (cleaner buffer) = cleaner buffer.
Proof.
  rewrite !cleaner_is_punctuation_filter.
  unfold removePunctuationOnlyLines at 2.
  apply removePunctuationOnlyLines_Join_kept.
  apply nonPunctuationLines_kept, splitOn_all_free.
Qed.

(** ** The splitter and the number of lines *)

Lemma splitOn_length_cons (sep c : rune) (s : gostring) :
  List.length (splitOn sep (c :: s))
  = if c =? sep then S (List.length (splitOn sep s))
    else List.length (splitOn sep s).
Proof.
  simpl. destruct (c =? sep); [reflexivity|].
  destruct (splitOn sep s) eqn:E; [|reflexivity].
  exfalso. now apply (splitOn_not_nil sep s).
Qed.

(** C6.  The splitter is monotone in the number of lines. *)
Theorem splitter_monotone (buffer : gostring) :
  (lineCount buffer <= lineCount (splitAfterPunctuation buffer))%nat.
Proof.
  unfold lineCount, Split, splitAfterPunctuation.
  induction buffer as [|c s IH]; [apply le_n|].
  cbn [ReplaceAllString]. destruct (splitterClass c).
  - rewrite (splitOn_length_cons NL c (NL :: _)), (splitOn_length_cons NL c s).
    rewrite (splitOn_length_cons NL NL). rewrite Z.eqb_refl.
    destruct (c =? NL); lia.
  - rewrite (splitOn_length_cons NL c (ReplaceAllString _ _)),
      (splitOn_length_cons NL c s).
    destruct (c =? NL); lia.
Qed.

(** ** The end of the files *)

(** Whatever the two programs write is the surviving lines of a buffer
    joined with the newline as a separator. *)
Lemma written_contents_survivors (w : world) (path content : gostring) :
  In (Written path content) (trace (run (main w)))
  \/ In (Written path content) (trace (run (sibling_main w))) ->
  exists buffer,
    content = Join (nonEmptyLines (Split buffer))
    /\ Forall survivor (nonEmptyLines (Split buffer))
    /\ linesOf content = nonEmptyLines (Split buffer)
    /\ ~ endsWithNewline content
    /\ (nonEmptyLines (Split buffer) = [] -> content = []).
Proof.
  intros H.
  assert (Hb : exists buffer, content = removeEmptyLines buffer).
  { destruct H as [H|H].
    - apply main_written in H. unfold output in H.
      decompose [or] H; eauto.
    - apply sibling_written in H. destruct H as [_ H]. eauto. }
  destruct Hb as [buffer ->]. exists buffer.
  pose proof (removeEmptyLines_survivors buffer) as Hs.
  unfold removeEmptyLines. repeat split.
  - exact Hs.
  - now apply linesOf_Join_survivors.
  - now apply Join_survivors_no_final_newline.
  - now intros ->.
Qed.

(** ** The splitter *)

Lemma one_of_In (cs : list rune) (c : rune) : one_of cs c = true <-> In c cs.
Proof.
  unfold one_of. rewrite existsb_exists. split.
  - intros (x & Hx & E). apply Z.eqb_eq in E. now subst.
  - intros H. exists c. split; [assumption | apply Z.eqb_refl].
Qed.

Lemma ReplaceAllString_inserted (cls : rune -> bool) (s : gostring) :
  InsertedAfter cls s (ReplaceAllString cls s).
Proof.
  induction s as [|c s IH]; simpl; [constructor|].
  destruct (cls c) eqn:E; now constructor.
Qed.

Lemma InsertedAfter_unique (cls : rune -> bool) (s t : gostring) :
  InsertedAfter cls s t -> t = ReplaceAllString cls s.
Proof.
  induction 1 as [|c s t Hc _ IH|c s t Hc _ IH]; simpl;
    [reflexivity | rewrite Hc | rewrite Hc]; now rewrite IH.
Qed.

(** The class of the splitter is the listed set and the two curly
    quotes. *)
Lemma splitterClass_members (c : rune) :
  splitterClass c = true
  <-> In c listedSplitterChars \/ c = 8220 \/ c = 8221.
Proof.
  unfold splitterClass. rewrite one_of_In.
  unfold splitterChars, listedSplitterChars. simpl.
  split; intros H; decompose [or] H; subst; try contradiction; auto 40.
Qed.

(** C3, as stated, fails: after a left curly quote, which the listed set
    does not contain, the splitter inserts a newline. *)
Lemma splitter_listed_set_counterexample :
  one_of listedSplitterChars 8220 = false
  /\ splitAfterPunctuation [8220] = [8220; NL]
  /\ ~ InsertedAfter (one_of listedSplitterChars) [8220]
         (splitAfterPunctuation [8220]).
Proof.
  split; [reflexivity|]. split; [reflexivity|].
  intros H. apply InsertedAfter_unique in H. vm_compute in H. discriminate.
Qed.

(** C3, amended.  The splitter returns the buffer with a newline inserted
    immediately after every occurrence of a character of the listed set or
    of a curly double quote (U+201C, U+201D), also when a newline already
    follows, and nothing else changed; no other text is so related to the
    buffer.  The em-dash and the ellipsis are single characters of the
    class: a pair of them gets one newline per character. *)
Theorem splitter_inserts_newlines (buffer : gostring) :
  InsertedAfter splitterClass buffer (splitAfterPunctuation buffer)
  /\ (forall t, InsertedAfter splitterClass buffer t ->
                t = splitAfterPunctuation buffer)
  /\ (forall c, splitterClass c = true
                <-> In c listedSplitterChars \/ c = 8220 \/ c = 8221)
  /\ (forall c rest, splitterClass c = true ->
        splitAfterPunctuation (c :: NL :: rest)
        = c :: NL :: NL :: splitAfterPunctuation rest)
  /\ splitAfterPunctuation [8212; 8212; 8230; 8230]
     = [8212; NL; 8212; NL; 8230; NL; 8230; NL].
Proof.
  split; [apply ReplaceAllString_inserted|].
  split; [apply InsertedAfter_unique|].
  split; [apply splitterClass_members|].
  split; [|reflexivity].
  intros c rest Hc. unfold splitAfterPunctuation. simpl.
  now rewrite Hc.
Qed.

(** ** The reading loop *)

Lemma fold_chinese (acc : sentences) (ms : list gostring) :
  fold_left (fun a sentence =>
               {| chineseSentences := chineseSentences a ++ [sentence];
                  englishSentences := englishSentences a;
                  combinedSentences := combinedSentences a ++ [sentence] |})
            ms acc
  = {| chineseSentences := chineseSentences acc ++ ms;
       englishSentences := englishSentences acc;
       combinedSentences := combinedSentences acc ++ ms |}.
Proof.
  revert acc. induction ms as [|m ms IH]; intros acc; simpl.
  - rewrite !app_nil_r. now destruct acc.
  - rewrite IH. simpl. now rewrite <- !app_assoc.
Qed.

Lemma fold_english (acc : sentences) (ms : list gostring) :
  fold_left (fun a sentence =>
               {| chineseSentences := chineseSentences a;
                  englishSentences := englishSentences a ++ [sentence];
                  combinedSentences := combinedSentences a ++ [sentence] |})
            ms acc
  = {| chineseSentences := chineseSentences acc;
       englishSentences := englishSentences acc ++ ms;
       combinedSentences := combinedSentences acc ++ ms |}.
Proof.
  revert acc. induction ms as [|m ms IH]; intros acc; simpl.
  - rewrite !app_nil_r. now destruct acc.
  - rewrite IH. simpl. now rewrite <- !app_assoc.
Qed.

Lemma scanLine_appends (acc : sentences) (line : gostring) :
  scanLine acc line
  = {| chineseSentences :=
         chineseSentences acc ++ FindAllString chineseClass line;
       englishSentences :=
         englishSentences acc ++ FindAllString englishClass line;
       combinedSentences :=
         combinedSentences acc
         ++ FindAllString chineseClass line
         ++ FindAllString englishClass line |}.
Proof.
  unfold scanLine. rewrite fold_chinese, fold_english. simpl.
  now rewrite <- app_assoc.
Qed.

Lemma fold_scanLine (acc : sentences) (lines : list gostring) :
  fold_left scanLine lines acc
  = {| chineseSentences :=
         chineseSentences acc
         ++ flat_map (FindAllString chineseClass) lines;
       englishSentences :=
         englishSentences acc
         ++ flat_map (FindAllString englishClass) lines;
       combinedSentences :=
         combinedSentences acc
         ++ flat_map (fun line => FindAllString chineseClass line
                                  ++ FindAllString englishClass line)
                     lines |}.
Proof.
  revert acc. induction lines as [|l ls IH]; intros acc; simpl.
  - rewrite !app_nil_r. now destruct acc.
  - rewrite IH, scanLine_appends. simpl. now rewrite <- !app_assoc.
Qed.

(** C4.  The Combined list is, line by line in the order of the input, the
    Chinese matches of the line from left to right followed by its Latin
    matches from left to right. *)
Theorem combined_is_chinese_then_latin_per_line (lines : list gostring) :
  combinedSentences (extract lines)
  = flat_map (fun line => FindAllString chineseClass line
                          ++ FindAllString englishClass line)
             lines
  /\ chineseSentences (extract lines)
     = flat_map (FindAllString chineseClass) lines
  /\ englishSentences (extract lines)
     = flat_map (FindAllString englishClass) lines.
Proof. unfold extract. rewrite fold_scanLine. simpl. auto. Qed.

(** ** The extractor *)

Section Extractor.
Variable cls : rune -> bool.

Lemma forallb_rev (s : gostring) :
  forallb cls s = true -> forallb cls (rev s) = true.
Proof.
  rewrite !forallb_forall. intros H c Hc. apply H. now apply in_rev.
Qed.

Lemma findRuns_runs (s cur : gostring) :
  forallb cls cur = true ->
  MaximalRuns cls (rev cur ++ s) (findRuns cls cur s).
Proof.
  revert cur. induction s as [|c s IH]; intros cur Hcur.
  - rewrite app_nil_r. destruct cur as [|d cur]; simpl.
    + constructor.
    + apply runs_last.
      * intros E. now apply app_eq_nil in E as [_ E].
      * now apply (forallb_rev (d :: cur)).
  - simpl. destruct (cls c) eqn:Hc.
    + specialize (IH (c :: cur)). simpl in IH.
      rewrite <- app_assoc in IH. apply IH. now rewrite Hc.
    + destruct cur as [|d cur].
      * apply runs_skip; [assumption | apply (IH [] eq_refl)].
      * apply runs_seg.
        -- simpl. intros E. now apply app_eq_nil in E as [_ E].
        -- now apply (forallb_rev (d :: cur)).
        -- assumption.
        -- apply (IH [] eq_refl).
Qed.

Lemma findRuns_run (a rest cur : gostring) :
  forallb cls a = true ->
  findRuns cls cur (a ++ rest) = findRuns cls (rev a ++ cur) rest.
Proof.
  revert cur. induction a as [|d a IH]; intros cur Ha; [reflexivity|].
  simpl in Ha. apply andb_true_iff in Ha as [Hd Ha].
  simpl. rewrite Hd, (IH _ Ha). now rewrite <- app_assoc.
Qed.

Lemma MaximalRuns_unique (l : gostring) (segs : list gostring) :
  MaximalRuns cls l segs -> FindAllString cls l = segs.
Proof.
  unfold FindAllString.
  induction 1 as [|c l segs Hc _ IH|seg Hne Hs
                  |seg c l segs Hne Hs Hc _ IH].
  - reflexivity.
  - simpl. now rewrite Hc.
  - rewrite <- (app_nil_r seg) at 1. rewrite (findRuns_run _ _ _ Hs).
    rewrite app_nil_r. simpl.
    destruct (rev seg) eqn:E.
    + apply (f_equal (@rev rune)) in E. rewrite rev_involutive in E.
      contradiction.
    + now rewrite <- E, rev_involutive.
  - rewrite (findRuns_run _ _ _ Hs). rewrite app_nil_r. simpl.
    rewrite Hc. destruct (rev seg) eqn:E.
    + apply (f_equal (@rev rune)) in E. rewrite rev_involutive in E.
      contradiction.
    + now rewrite <- E, rev_involutive, IH.
Qed.

Lemma MaximalRuns_segments (l : gostring) (segs : list gostring) :
  MaximalRuns cls l segs ->
  Forall (fun seg => seg <> [] /\ forallb cls seg = true) segs.
Proof. induction 1; auto. Qed.

Lemma Subseq_refl (s : gostring) : Subseq s s.
Proof. induction s; now constructor. Qed.

Lemma Subseq_prefix (a s l : gostring) :
  Subseq s l -> Subseq (a ++ s) (a ++ l).
Proof. intros H. induction a; simpl; [assumption | now constructor]. Qed.

Lemma MaximalRuns_subseq (l : gostring) (segs : list gostring) :
  MaximalRuns cls l segs -> Subseq (concat segs) l.
Proof.
  induction 1; simpl.
  - constructor.
  - now constructor.
  - rewrite app_nil_r. apply Subseq_refl.
  - apply Subseq_prefix. now constructor.
Qed.

Lemma FindAllString_spec (line : gostring) :
  MaximalRuns cls line (FindAllString cls line)
  /\ Forall (fun seg => seg <> [] /\ forallb cls seg = true)
            (FindAllString cls line)
  /\ Subseq (concat (FindAllString cls line)) line
  /\ (forall segs, MaximalRuns cls line segs ->
                   segs = FindAllString cls line).
Proof.
  pose proof (findRuns_runs line [] eq_refl) as H. simpl in H.
  fold (FindAllString cls line) in H.
  split; [assumption|]. split; [now apply MaximalRuns_segments in H|].
  split; [now apply MaximalRuns_subseq|].
  intros segs Hs. symmetry. now apply MaximalRuns_unique.
Qed.
End Extractor.

(** C7.  For every line and either class, the extractor returns, in order,
    the maximal runs of characters of the class: each is non-empty and
    made of characters of the class only, they are the only such
    decomposition, and their concatenation is a subsequence of the line. *)
Theorem extractor_maximal_runs (line : gostring) :
  (MaximalRuns chineseClass line (FindAllString chineseClass line)
   /\ Forall (fun seg => seg <> [] /\ forallb chineseClass seg = true)
             (FindAllString chineseClass line)
   /\ Subseq (concat (FindAllString chineseClass line)) line
   /\ (forall segs, MaximalRuns chineseClass line segs ->
                    segs = FindAllString chineseClass line))
  /\
  (MaximalRuns englishClass line (FindAllString englishClass line)
   /\ Forall (fun seg => seg <> [] /\ forallb englishClass seg = true)
             (FindAllString englishClass line)
   /\ Subseq (concat (FindAllString englishClass line)) line
   /\ (forall segs, MaximalRuns englishClass line segs ->
                    segs = FindAllString englishClass line)).
Proof. split; apply FindAllString_spec. Qed.

(** ** Scenarios *)

(** C8.  For the single input line [A。B。] the Chinese pipeline produces
    the empty string: the scanner yields that one line, the extractor finds
    the two runs [。] and [。], and every line of the split text is dropped
    by the punctuation-only filter. *)
Theorem scenario_latin_letters_between_full_stops :
  let input := [65; 12290; 66; 12290] in
  let lines := fst (Scanner input None) in
  lines = [input]
  /\ FindAllString chineseClass input = [[12290]; [12290]]
  /\ splitAfterPunctuation (joinLines (chineseSentences (extract lines)))
     = [12290; NL; NL; 12290; NL]
  /\ prepared (chineseSentences (extract lines)) = []
  /\ output (chineseSentences (extract lines)) = []
  /\ In (Written pureChineseSentencesFile [])
        (trace (run (main (quietWorld (str "in.txt") input)))).
Proof. vm_compute. repeat split. auto 20. Qed.

(** ** Errors and the exit code *)

(** C1, as stated, fails: when the input file cannot be opened, [main]
    prints its message and returns, and the process exits with code 0. *)
Lemma error_exit_code_counterexample :
  firstError missingInputWorld = Some (str "opening input file", noSuchFile)
  /\ lastPrinted (trace (run (main missingInputWorld)))
     = Some (str "Error opening input file: open in.txt: no such file or directory"
             ++ [NL])
  /\ exit_code (run (main missingInputWorld)) = 0
  /\ ~ exit_code (run (main missingInputWorld)) <> 0.
Proof. vm_compute. repeat split. intros H. now apply H. Qed.

(** C1, amended.  For every error met at run time -- of the picker, of the
    opening or the reading of the input, of the creation or the writing of
    an output file -- [main] prints, last, a message that names the stage
    and the error, and returns; the success message is printed only when
    no error occurred; and the process ends with exit code 0 on every run,
    of [main] as of the sibling program. *)
Theorem errors_reported_exit_code_zero (w : world) :
  exit_code (run (main w)) = 0
  /\ exit_code (run (sibling_main w)) = 0
  /\ match firstError w with
     | Some (stage, e) =>
         lastPrinted (trace (run (main w)))
         = Some (str "Error " ++ stage ++ str ": " ++ Error e ++ [NL])
     | None =>
         lastPrinted (trace (run (main w)))
         = Some (str "All output files written and cleaned successfully!"
                 ++ [NL])
         \/ (fst (dialog_Load w) = []
             /\ lastPrinted (trace (run (main w)))
                = Some (str "No input file selected." ++ [NL]))
     end.
Proof.
  split; [|split].
  - unfold main, run, exit_code, writeCleanedContent, fmt_Printf,
      fmt_Println, bind, ret, emit.
    world_cases w; reflexivity.
  - unfold sibling_main, run, exit_code, os_ReadFile, os_WriteFile,
      fmt_Printf, fmt_Println, bind, ret, emit.
    destruct (dialog_Load w) as [p [e|]]; [destruct (isCancelled e)|];
      try reflexivity.
    destruct (os_Open w p); [reflexivity|].
    destruct (file_readErr w p); [reflexivity|].
    destruct (Scanner (insertNewlines (file_data w p)) None) as [ts [e|]];
      [reflexivity|].
    destruct (os_Create w (outputFilePath p)); [reflexivity|].
    destruct (file_writeErr w (outputFilePath p)); reflexivity.
  - unfold firstError, writeError, main, run, trace, lastPrinted,
      writeCleanedContent, fmt_Printf, fmt_Println, bind, ret, emit.
    world_cases w; cbn [fst snd app printed map last];
      try reflexivity; auto.
Qed.

(** ** Paths *)

Lemma gostring_eqb_eq (a b : gostring) : gostring_eqb a b = true <-> a = b.
Proof.
  unfold gostring_eqb. destruct (list_eq_dec Z.eq_dec a b); split;
    congruence.
Qed.

Lemma gostring_eqb_neq (a b : gostring) : gostring_eqb a b = false <-> a <> b.
Proof.
  unfold gostring_eqb. destruct (list_eq_dec Z.eq_dec a b); split;
    congruence.
Qed.

Lemma notSeparator_sepFree (s : gostring) :
  forallb notSeparator s = true <-> sepFree Separator s.
Proof.
  unfold sepFree. rewrite forallb_forall, Forall_forall.
  unfold notSeparator, IsPathSeparator.
  split; intros H c Hc; specialize (H c Hc).
  - apply negb_true_iff, Z.eqb_neq in H. exact H.
  - now apply negb_true_iff, Z.eqb_neq.
Qed.

Lemma okStack_dotdots (out : list gostring) :
  Forall (eq dotdot) out -> okStack false out.
Proof.
  induction 1 as [|e out He Hout IH]; [constructor|].
  subst e. now apply ok_dotdot.
Qed.

Lemma okStack_tail (rooted : bool) (e : gostring) (out : list gostring) :
  okStack rooted (e :: out) -> okStack rooted out.
Proof.
  inversion 1; subst; [|assumption]. now apply okStack_dotdots.
Qed.

Lemma okStack_suffix (rooted : bool) (a b : list gostring) :
  okStack rooted (a ++ b) -> okStack rooted b.
Proof.
  induction a as [|e a IH]; [trivial|].
  intros H. apply IH. simpl in H. eapply okStack_tail, H.
Qed.

Lemma okStack_elements (rooted : bool) (out : list gostring) :
  okStack rooted out ->
  Forall (fun e => e <> [] /\ sepFree Separator e) out.
Proof.
  induction 1 as [|out _ Hd|name out (Hne & Hf & _) _ IH].
  - constructor.
  - constructor.
    + split; [discriminate | now apply notSeparator_sepFree].
    + eapply Forall_impl; [|exact Hd]. intros e <-.
      split; [discriminate | now apply notSeparator_sepFree].
  - constructor; [|assumption].
    split; [assumption | now apply notSeparator_sepFree].
Qed.

(** One round of the loop on an element that an accepted stack ends
    with: the element is pushed. *)
Lemma cleanLoop_push (rooted : bool) (e : gostring)
      (out rest : list gostring) :
  okStack rooted (e :: out) ->
  cleanLoop rooted out (e :: rest) = cleanLoop rooted (e :: out) rest.
Proof.
  inversion 1 as [|out' Hr Hd|name out' (Hne & _ & Hdot & Hdd) _]; subst.
  - cbn [cleanLoop].
    replace (gostring_eqb dotdot [] || gostring_eqb dotdot dot) with false
      by reflexivity.
    replace (gostring_eqb dotdot dotdot) with true by reflexivity.
    destruct out as [|top out]; [reflexivity|].
    inversion Hd; subst. reflexivity.
  - cbn [cleanLoop].
    apply gostring_eqb_neq in Hne, Hdot, Hdd.
    now rewrite Hne, Hdot, Hdd.
Qed.

Lemma cleanLoop_replay (rooted : bool) (st out rest : list gostring) :
  okStack rooted (rev st ++ out) ->
  cleanLoop rooted out (st ++ rest) = cleanLoop rooted (rev st ++ out) rest.
Proof.
  revert out. induction st as [|e st IH]; intros out H; [reflexivity|].
  cbn [rev] in *. rewrite <- app_assoc in *. cbn [app] in *.
  rewrite cleanLoop_push by (eapply okStack_suffix, H).
  now rewrite (IH (e :: out) H).
Qed.

(** The loop keeps its stack accepted. *)
Lemma cleanLoop_okStack (rooted : bool) (elems out : list gostring) :
  Forall (sepFree Separator) elems ->
  okStack rooted out ->
  okStack rooted (rev (cleanLoop rooted out elems)).
Proof.
  intros He. revert out.
  induction He as [|e elems Hf _ IH]; intros out Hout.
  - simpl. now rewrite rev_involutive.
  - cbn [cleanLoop].
    destruct (gostring_eqb e []) eqn:E0; [now apply IH|].
    destruct (gostring_eqb e dot) eqn:E1; [now apply IH|].
    cbn [orb].
    destruct (gostring_eqb e dotdot) eqn:E2.
    + apply gostring_eqb_eq in E2. subst e.
      destruct out as [|top out].
      * destruct rooted eqn:R; apply IH; [constructor|].
        apply ok_dotdot; [reflexivity | constructor].
      * destruct (gostring_eqb top dotdot) eqn:E3.
        -- apply gostring_eqb_eq in E3. subst top. apply IH.
           inversion Hout as [|out' Hr Hd|name out' (_ & _ & _ & Hdd) _];
             subst; [|congruence].
           apply ok_dotdot; [reflexivity | now constructor].
        -- apply IH. apply gostring_eqb_neq in E3.
           inversion Hout; subst; [congruence | assumption].
    + apply IH. apply ok_plain; [|assumption].
      apply gostring_eqb_neq in E0, E1, E2.
      repeat split; try assumption. now apply notSeparator_sepFree.
Qed.

(** The first character of a cleaned path tells whether it is rooted. *)
Lemma cleaned_head (rooted : bool) (st : list gostring) :
  okStack rooted (rev st) ->
  exists c t, cleaned rooted st = c :: t /\ IsPathSeparator c = rooted.
Proof.
  intros H. destruct rooted.
  - now exists Separator, (joinWith Separator st).
  - destruct st as [|e st]; [now exists 46, []|].
    apply okStack_elements in H. rewrite Forall_forall in H.
    destruct (H e) as [Hne Hf]; [apply in_rev; rewrite rev_involutive; now left|].
    destruct e as [|c e]; [congruence|].
    inversion Hf; subst.
    exists c. unfold cleaned.
    destruct st; simpl; eexists; (split; [reflexivity|]);
      now apply Z.eqb_neq.
Qed.

Lemma okStack_rev_elements (rooted : bool) (st : list gostring) :
  okStack rooted (rev st) -> Forall (sepFree Separator) st.
Proof.
  intros H. apply okStack_elements in H.
  rewrite Forall_forall in *. intros e He.
  apply H. now apply in_rev in He.
Qed.

(** Replaying the elements of a cleaned path rebuilds its stack. *)
Lemma cleanLoop_cleaned (rooted : bool) (st rest : list gostring) :
  okStack rooted (rev st) ->
  cleanLoop rooted [] (splitOn Separator (cleaned rooted st) ++ rest)
  = cleanLoop rooted (rev st) rest.
Proof.
  intros H. pose proof (okStack_rev_elements _ _ H) as Hf.
  destruct st as [|e st].
  - destruct rooted; reflexivity.
  - assert (Hs : splitOn Separator (joinWith Separator (e :: st)) = e :: st)
      by (apply splitOn_joinWith; [discriminate | assumption]).
    rewrite <- (app_nil_r (rev (e :: st))).
    rewrite <- (cleanLoop_replay rooted (e :: st) [] rest)
      by (now rewrite app_nil_r).
    destruct rooted; unfold cleaned.
    + change (Separator :: joinWith Separator (e :: st))
        with ([] ++ Separator :: joinWith Separator (e :: st)).
      rewrite splitOn_app by constructor. now rewrite Hs.
    + now rewrite Hs.
Qed.

Lemma Clean_cleaned_app (rooted : bool) (st : list gostring) (x : gostring) :
  okStack rooted (rev st) -> sepFree Separator x ->
  Clean (cleaned rooted st ++ Separator :: x)
  = cleaned rooted (cleanLoop rooted (rev st) [x]).
Proof.
  intros H Hx. destruct (cleaned_head rooted st H) as (c & t & E & Hc).
  unfold Clean. rewrite E. cbn [app]. rewrite Hc.
  change (c :: t ++ Separator :: x) with ((c :: t) ++ Separator :: x).
  rewrite <- E.
  rewrite splitOn_app_general, (splitOn_free _ x Hx).
  now rewrite cleanLoop_cleaned.
Qed.

Lemma cleanLoop_last_plain (rooted : bool) (st : list gostring)
      (name : gostring) :
  plainName name -> cleanLoop rooted (rev st) [name] = st ++ [name].
Proof.
  intros (Hne & _ & Hdot & Hdd). cbn [cleanLoop].
  apply gostring_eqb_neq in Hne, Hdot, Hdd. rewrite Hne, Hdot, Hdd.
  cbn [orb rev]. now rewrite rev_involutive.
Qed.

Lemma cleaned_snoc (rooted : bool) (st : list gostring) (name : gostring) :
  name <> [] ->
  cleaned rooted (st ++ [name]) = dirPrefix rooted st ++ name.
Proof.
  intros Hne. unfold cleaned, dirPrefix.
  destruct st as [|e st].
  - destruct rooted; [reflexivity|]. simpl. destruct name; congruence.
  - rewrite joinWith_app by discriminate.
    change (joinWith Separator [name]) with name.
    destruct rooted.
    + cbn [app]. now rewrite <- app_assoc.
    + cbn [app]. rewrite <- app_assoc. cbn [app].
      destruct (joinWith Separator (e :: st) ++ Separator :: name) eqn:E;
        [|reflexivity].
      now apply app_eq_nil in E as [_ E].
Qed.

Lemma Clean_dirPrefix (rooted : bool) (st : list gostring) :
  okStack rooted (rev st) -> Clean (dirPrefix rooted st) = cleaned rooted st.
Proof.
  intros H. destruct st as [|e st].
  - destruct rooted; reflexivity.
  - replace (dirPrefix rooted (e :: st))
      with (cleaned rooted (e :: st) ++ Separator :: []).
    + rewrite Clean_cleaned_app by (assumption || constructor).
      cbn [cleanLoop]. replace (gostring_eqb [] []) with true by reflexivity.
      cbn [orb]. now rewrite rev_involutive.
    + unfold dirPrefix, cleaned. destruct rooted; reflexivity.
Qed.

Lemma dirPrefix_end (rooted : bool) (st : list gostring) :
  headFails notSeparator (rev (dirPrefix rooted st)).
Proof.
  unfold dirPrefix. destruct st as [|e st].
  - destruct rooted; [reflexivity | exact I].
  - rewrite app_assoc, rev_app_distr. reflexivity.
Qed.

(** Every result of [Clean] is the buffer of an accepted stack. *)
Lemma Clean_okStack (path : gostring) :
  exists rooted st, okStack rooted (rev st) /\ Clean path = cleaned rooted st.
Proof.
  destruct path as [|c path].
  - exists false, []. split; [constructor | reflexivity].
  - exists (IsPathSeparator c),
      (cleanLoop (IsPathSeparator c) [] (splitOn Separator (c :: path))).
    split; [|reflexivity].
    apply cleanLoop_okStack; [apply splitOn_all_free | constructor].
Qed.

Lemma Join_cleaned (rooted : bool) (st : list gostring) (name : gostring) :
  okStack rooted (rev st) -> plainName name ->
  filepath_Join (cleaned rooted st) name = cleaned rooted (st ++ [name]).
Proof.
  intros H Hn. destruct (cleaned_head rooted st H) as (c & t & E & _).
  unfold filepath_Join. rewrite E, <- E.
  rewrite Clean_cleaned_app.
  - now rewrite cleanLoop_last_plain.
  - assumption.
  - apply notSeparator_sepFree, Hn.
Qed.

Lemma Dir_prefix_name (prefix name : gostring) :
  headFails notSeparator (rev prefix) ->
  forallb notSeparator name = true ->
  Dir (prefix ++ name) = Clean prefix.
Proof.
  intros Hp Hn. unfold Dir. rewrite rev_app_distr, dropWhile_app.
  rewrite (forallb_rev _ _ Hn).
  now rewrite (dropWhile_fixed _ _ Hp), rev_involutive.
Qed.

Lemma Base_prefix_name (prefix name : gostring) :
  headFails notSeparator (rev prefix) ->
  name <> [] -> forallb notSeparator name = true ->
  Base (prefix ++ name) = name.
Proof.
  intros Hp Hne Hn. unfold Base.
  destruct (prefix ++ name) eqn:E;
    [now apply app_eq_nil in E as [_ E]|]. rewrite <- E. clear E.
  rewrite rev_app_distr.
  assert (Hr : forallb notSeparator (rev name) = true)
    by now apply forallb_rev.
  assert (Hd : dropWhile IsPathSeparator (rev name ++ rev prefix)
               = rev name ++ rev prefix).
  { apply dropWhile_fixed. destruct (rev name) as [|c q] eqn:Er.
    - apply (f_equal (@rev rune)) in Er. rewrite rev_involutive in Er.
      contradiction.
    - simpl in *. apply andb_true_iff in Hr as [Hc _].
      now apply negb_true_iff in Hc. }
  rewrite Hd.
  assert (Ht : takeWhile notSeparator (rev name ++ rev prefix) = rev name).
  { destruct (rev prefix) as [|d q].
    - rewrite app_nil_r. now apply takeWhile_all_id.
    - now apply takeWhile_app_stop. }
  rewrite Ht, rev_involutive. destruct name; congruence.
Qed.

(** A path that does not end with a separator is a directory prefix,
    empty or ending with a separator, and a last element. *)
Lemma path_prefix_name (path : gostring) :
  path <> [] -> headFails IsPathSeparator (rev path) ->
  exists prefix name,
    path = prefix ++ name
    /\ headFails notSeparator (rev prefix)
    /\ name <> [] /\ forallb notSeparator name = true.
Proof.
  intros Hne Hend.
  exists (rev (dropWhile notSeparator (rev path))),
         (rev (takeWhile notSeparator (rev path))).
  repeat split.
  - rewrite <- rev_app_distr, takeWhile_dropWhile. now rewrite rev_involutive.
  - rewrite rev_involutive. apply dropWhile_headFails.
  - intros E. apply (f_equal (@rev rune)) in E.
    rewrite rev_involutive in E. simpl in E.
    destruct (rev path) as [|c r] eqn:Er.
    + apply (f_equal (@rev rune)) in Er. rewrite rev_involutive in Er.
      contradiction.
    + simpl in *. unfold notSeparator in E. rewrite Hend in E.
      discriminate.
  - apply forallb_rev, takeWhile_all.
Qed.

Lemma takeWhile_last_element (prefix name : gostring) :
  headFails notSeparator (rev prefix) ->
  forallb notSeparator name = true ->
  takeWhile notSeparator (rev (prefix ++ name)) = rev name.
Proof.
  intros Hp Hn. rewrite rev_app_distr.
  assert (Hr : forallb notSeparator (rev name) = true)
    by now apply forallb_rev.
  destruct (rev prefix) as [|d q].
  - rewrite app_nil_r. now apply takeWhile_all_id.
  - now apply takeWhile_app_stop.
Qed.

(** The extension is a suffix of the last element of the path. *)
Lemma extLoop_suffix (reversed suffix : gostring) :
  exists stem,
    rev (takeWhile notSeparator reversed) ++ suffix
    = stem ++ extLoop reversed suffix.
Proof.
  revert suffix. induction reversed as [|c r IH]; intros suffix.
  - exists suffix. simpl. now rewrite app_nil_r.
  - simpl. unfold notSeparator at 1.
    destruct (IsPathSeparator c); simpl.
    + exists suffix. now rewrite app_nil_r.
    + destruct (c =? 46).
      * exists (rev (takeWhile notSeparator r)). now rewrite <- app_assoc.
      * destruct (IH (c :: suffix)) as [stem E]. exists stem.
        now rewrite <- app_assoc.
Qed.

Lemma skipn_length_app (a b : gostring) : skipn (List.length a) (a ++ b) = b.
Proof. induction a; [reflexivity | assumption]. Qed.

Lemma firstn_length_app (a b : gostring) : firstn (List.length a) (a ++ b) = a.
Proof. induction a; [reflexivity | simpl; now f_equal]. Qed.

Lemma TrimSuffix_app (stem suffix : gostring) :
  TrimSuffix (stem ++ suffix) suffix = stem.
Proof.
  unfold TrimSuffix. rewrite length_app.
  replace (List.length stem + List.length suffix - List.length suffix)%nat
    with (List.length stem) by lia.
  rewrite skipn_length_app, firstn_length_app.
  replace (gostring_eqb suffix suffix) with true
    by (symmetry; now apply gostring_eqb_eq).
  replace (List.length suffix <=? List.length stem + List.length suffix)%nat
    with true by (symmetry; apply Nat.leb_le; lia).
  reflexivity.
Qed.

Lemma suffixed_name_plain (stem ext : gostring) :
  forallb notSeparator (stem ++ ext) = true ->
  plainName (stem ++ str "_sc" ++ ext).
Proof.
  intros H. rewrite forallb_app in H. apply andb_true_iff in H as [Hs He].
  repeat split.
  - intros E. apply app_eq_nil in E as [_ E]. discriminate.
  - rewrite !forallb_app, Hs, He. reflexivity.
  - intros E. apply (f_equal (@List.length rune)) in E.
    rewrite !length_app in E. simpl in E. lia.
  - intros E. apply (f_equal (@List.length rune)) in E.
    rewrite !length_app in E. simpl in E. lia.
Qed.

(** The output path of the sibling program, for an input path that names
    a file: in the directory of the input, with [_sc] between the stem and
    the extension of its last element. *)
Lemma outputFilePath_spec (path : gostring) :
  path <> [] -> headFails IsPathSeparator (rev path) ->
  TrimSuffix (Base path) (Ext path) ++ Ext path = Base path
  /\ plainName (TrimSuffix (Base path) (Ext path) ++ str "_sc" ++ Ext path)
  /\ outputFilePath path
     = filepath_Join (Dir path)
         (TrimSuffix (Base path) (Ext path) ++ str "_sc" ++ Ext path)
  /\ Dir (outputFilePath path) = Dir path
  /\ Base (outputFilePath path)
     = TrimSuffix (Base path) (Ext path) ++ str "_sc" ++ Ext path.
Proof.
  intros Hne Hend.
  destruct (path_prefix_name path Hne Hend)
    as (prefix & name & -> & Hp & Hn & Hf).
  unfold outputFilePath.
  rewrite (Base_prefix_name _ _ Hp Hn Hf), (Dir_prefix_name _ _ Hp Hf).
  destruct (extLoop_suffix (rev (prefix ++ name)) []) as [stem E].
  rewrite (takeWhile_last_element _ _ Hp Hf), rev_involutive, app_nil_r in E.
  fold (Ext (prefix ++ name)) in E.
  set (ext := Ext (prefix ++ name)) in *. clearbody ext. subst name.
  rewrite TrimSuffix_app.
  pose proof (suffixed_name_plain stem ext Hf) as Hplain.
  destruct (Clean_okStack prefix) as (rooted & st & Hok & ->).
  rewrite (Join_cleaned _ _ _ Hok Hplain).
  pose proof Hplain as (Hne' & Hf' & _).
  rewrite (cleaned_snoc _ _ _ Hne').
  split; [reflexivity|]. split; [assumption|]. split; [reflexivity|].
  split.
  - rewrite (Dir_prefix_name _ _ (dirPrefix_end rooted st) Hf').
    now apply Clean_dirPrefix.
  - apply Base_prefix_name; [apply dirPrefix_end | assumption..].
Qed.

(** ** The sibling program *)

(** When the picker returns a path that names a file, the file is
    read, the scanner reports no error over the processed text
    and the output is written without error, the sibling program writes
    one file: its content is the input with a newline inserted after every
    character of [，。？：！；、……——], passed through the empty-line filter
    only; its path is in the directory of the input and its last element
    is the stem of the input, [_sc] and the extension of the input.  For
    the content [第一句。第二句！] the file holds the two sentences on
    separate lines, without a final blank line. *)
Lemma sibling_mode_scanned (w : world) (path content : gostring) :
  dialog_Load w = (path, None) ->
  os_ReadFile w path = inl content ->
  snd (Scanner (insertNewlines content) None) = None ->
  writeError w (outputFilePath path) = None ->
  path <> [] -> headFails IsPathSeparator (rev path) ->
  InsertedAfter chinesePunctuationClass content (insertNewlines content)
  /\ In (Written (outputFilePath path)
                 (removeEmptyLines (insertNewlines content)))
        (trace (run (sibling_main w)))
  /\ (forall p c, In (Written p c) (trace (run (sibling_main w))) ->
                  p = outputFilePath path
                  /\ c = removeEmptyLines (insertNewlines content))
  /\ Dir (outputFilePath path) = Dir path
  /\ Base (outputFilePath path)
     = TrimSuffix (Base path) (Ext path) ++ str "_sc" ++ Ext path
  /\ TrimSuffix (Base path) (Ext path) ++ Ext path = Base path
  /\ removeEmptyLines (insertNewlines (firstSentence ++ secondSentence))
     = firstSentence ++ [NL] ++ secondSentence
  /\ linesOf (firstSentence ++ [NL] ++ secondSentence)
     = [firstSentence; secondSentence].
Proof.
  intros Hload Hread Hscan Hwrite Hne Hend.
  split; [apply ReplaceAllString_inserted|].
  assert (Hrun : trace (run (sibling_main w))
                 = [ Stdout (spaced [str "Selected input file:"; path]
                             ++ [NL]);
                     Created (outputFilePath path);
                     Written (outputFilePath path)
                             (removeEmptyLines (insertNewlines content));
                     Stdout (concat
                       [str "Processed file with empty lines removed has been saved to: ";
                        outputFilePath path; [NL]]) ]).
  { unfold sibling_main. rewrite Hload, Hread.
    destruct (Scanner (insertNewlines content) None) as [tokens e] eqn:ES.
    simpl in Hscan. subst e.
    rewrite (scanner_loop_removeEmptyLines _ _ ES).
    unfold writeError in Hwrite. unfold os_WriteFile.
    destruct (os_Create w (outputFilePath path)); [discriminate|].
    rewrite Hwrite. reflexivity. }
  rewrite Hrun.
  destruct (outputFilePath_spec path Hne Hend) as (Hstem & _ & _ & Hdir & Hbase).
  split; [right; right; now left|].
  split.
  { intros p c H. simpl in H. decompose [or] H; try discriminate;
      try contradiction.
    match goal with E : Written _ _ = Written _ _ |- _ => now inversion E end. }
  repeat split; assumption || reflexivity.
Qed.

(** * Further properties of the code *)

(** ** What the extractor keeps *)

Lemma filter_all (cls : rune -> bool) (s : gostring) :
  forallb cls s = true -> filter cls s = s.
Proof.
  induction s as [|c s IH]; simpl; [reflexivity|].
  intros H. apply andb_true_iff in H as [Hc Hs]. rewrite Hc.
  now rewrite IH.
Qed.

Lemma MaximalRuns_filter (cls : rune -> bool) (l : gostring)
      (segs : list gostring) :
  MaximalRuns cls l segs -> concat segs = filter cls l.
Proof.
  induction 1 as [|c l segs Hc _ IH|seg _ Hs|seg c l segs _ Hs Hc _ IH];
    simpl.
  - reflexivity.
  - now rewrite Hc.
  - now rewrite app_nil_r, filter_all.
  - rewrite filter_app, (filter_all _ _ Hs). simpl. now rewrite Hc, IH.
Qed.

Lemma FindAllString_filter (cls : rune -> bool) (line : gostring) :
  concat (FindAllString cls line) = filter cls line.
Proof. apply MaximalRuns_filter, FindAllString_spec. Qed.

(** The matches of a line, put end to end, are the characters of the
    class the line holds, all of them and in their order: the extractor
    loses no character of the class and keeps no other. *)
Theorem extractor_keeps_class_characters (line : gostring) :
  concat (FindAllString chineseClass line) = filter chineseClass line
  /\ concat (FindAllString englishClass line) = filter englishClass line.
Proof. split; apply FindAllString_filter. Qed.

Lemma filter_nil_outside (cls : rune -> bool) (s : gostring) :
  filter cls s = [] <-> outside cls s = true.
Proof.
  unfold outside. induction s as [|c s IH]; simpl; [tauto|].
  destruct (cls c); simpl; [|exact IH].
  split; discriminate.
Qed.

Lemma concat_nonempty_nil (segs : list gostring) :
  Forall (fun seg => seg <> []) segs -> concat segs = [] -> segs = [].
Proof.
  intros H E. destruct H as [|seg segs Hne _]; [reflexivity|].
  simpl in E. now apply app_eq_nil in E as [E _].
Qed.

Lemma FindAllString_nil (cls : rune -> bool) (line : gostring) :
  FindAllString cls line = [] <-> outside cls line = true.
Proof.
  rewrite <- filter_nil_outside, <- FindAllString_filter. split.
  - now intros ->.
  - apply concat_nonempty_nil.
    destruct (FindAllString_spec cls line) as (_ & H & _).
    eapply Forall_impl; [|exact H]. now intros ? [? _].
Qed.

(** A line yields no match exactly when it holds no character of the
    class; in particular the empty line yields none. *)
Theorem extractor_finds_nothing_iff (line : gostring) :
  (FindAllString chineseClass line = []
   <-> outside chineseClass line = true)
  /\ (FindAllString englishClass line = []
      <-> outside englishClass line = true).
Proof. split; apply FindAllString_nil. Qed.

Lemma flat_map_nil (f : gostring -> list gostring) (lines : list gostring) :
  Forall (fun line => f line = []) lines -> flat_map f lines = [].
Proof.
  induction 1 as [|l ls Hl _ IH]; simpl; [reflexivity|].
  now rewrite Hl, IH.
Qed.

(** When no line of the input holds a character of the Chinese class, the
    Chinese list is empty and so is the Chinese file; the Combined list is
    then the English list. *)
Theorem no_chinese_character_empty_file (lines : list gostring) :
  Forall (fun line => outside chineseClass line = true) lines ->
  chineseSentences (extract lines) = []
  /\ output (chineseSentences (extract lines)) = []
  /\ combinedSentences (extract lines) = englishSentences (extract lines).
Proof.
  intros H.
  assert (Hn : Forall (fun line => FindAllString chineseClass line = [])
                      lines).
  { eapply Forall_impl; [|exact H]. intros l Hl. now apply FindAllString_nil. }
  unfold extract. rewrite fold_scanLine. cbn [chineseSentences
    englishSentences combinedSentences app].
  rewrite (flat_map_nil _ _ Hn).
  split; [reflexivity|]. split; [reflexivity|].
  clear H. induction Hn as [|l ls Hl _ IH]; simpl; [reflexivity|].
  now rewrite Hl, IH.
Qed.

(** Two lines of Latin letters. *)
Lemma no_chinese_character_empty_file_witness :
  chineseSentences (extract [str "abc"; str "def"]) = []
  /\ output (chineseSentences (extract [str "abc"; str "def"])) = []
  /\ combinedSentences (extract [str "abc"; str "def"])
     = englishSentences (extract [str "abc"; str "def"]).
Proof.
  apply (no_chinese_character_empty_file [str "abc"; str "def"]).
  repeat constructor.
Defined.

(** ** Where the characters of the files come from *)

Lemma In_joinWith (sep : rune) (lines : list gostring) (c : rune) :
  In c (joinWith sep lines) ->
  c = sep \/ exists l, In l lines /\ In c l.
Proof.
  induction lines as [|l ls IH]; [contradiction|].
  destruct ls as [|l' ls].
  - simpl. intros H. right. exists l. auto.
  - rewrite joinWith_cons by discriminate. intros H.
    apply in_app_or in H as [H|[H|H]].
    + right. exists l. split; [now left | assumption].
    + now left.
    + destruct (IH H) as [E|(x & Hx & Hc)]; [now left|].
      right. exists x. split; [now right | assumption].
Qed.

Lemma joinWith_In (sep : rune) (lines : list gostring) (l : gostring)
      (c : rune) :
  In l lines -> In c l -> In c (joinWith sep lines).
Proof.
  induction lines as [|x ls IH]; [contradiction|].
  intros Hl Hc. destruct ls as [|x' ls].
  - destruct Hl as [->|[]]. exact Hc.
  - rewrite joinWith_cons by discriminate. apply in_or_app.
    destruct Hl as [->|Hl]; [now left|].
    right. right. now apply IH.
Qed.

Lemma In_Split (s l : gostring) (c : rune) :
  In l (Split s) -> In c l -> In c s.
Proof.
  intros Hl Hc. rewrite <- (joinWith_splitOn NL s).
  now apply (joinWith_In NL _ l).
Qed.

Lemma In_ReplaceAllString (cls : rune -> bool) (s : gostring) (c : rune) :
  In c (ReplaceAllString cls s) -> c = NL \/ In c s.
Proof.
  induction s as [|d s IH]; simpl; [tauto|].
  destruct (cls d); simpl; intros H; decompose [or] H; auto;
    destruct (IH ltac:(assumption)); auto.
Qed.

Lemma In_nonEmptyLines (lines : list gostring) (l : gostring) :
  In l (nonEmptyLines lines) -> exists x, In x lines /\ l = TrimSpace x.
Proof.
  induction lines as [|x ls IH]; simpl; [contradiction|].
  destruct (TrimSpace x) as [|c t] eqn:E.
  - intros H. destruct (IH H) as (y & Hy & ->). exists y. auto.
  - intros [H|H].
    + exists x. split; [now left | congruence].
    + destruct (IH H) as (y & Hy & ->). exists y. auto.
Qed.

Lemma In_nonPunctuationLines (lines : list gostring) (l : gostring) :
  In l (nonPunctuationLines lines) ->
  exists x, In x lines /\ l = TrimSpace x.
Proof.
  induction lines as [|x ls IH]; [contradiction|].
  cbn [nonPunctuationLines].
  destruct (negb match TrimSpace x with [] => true | _ :: _ => false end
            && negb (MatchString punctuationOnlyClass (TrimSpace x))).
  - intros [H|H].
    + exists x. split; [now left | congruence].
    + destruct (IH H) as (y & Hy & ->). exists y. split; [now right | auto].
  - intros H. destruct (IH H) as (y & Hy & ->).
    exists y. split; [now right | auto].
Qed.

Lemma In_removeEmptyLines (s : gostring) (c : rune) :
  In c (removeEmptyLines s) -> c = NL \/ In c s.
Proof.
  unfold removeEmptyLines, Join. intros H.
  apply In_joinWith in H as [H|(l & Hl & Hc)]; [now left|].
  right. apply In_nonEmptyLines in Hl as (x & Hx & ->).
  apply TrimSpace_incl in Hc. now apply (In_Split s x).
Qed.

Lemma In_removePunctuationOnlyLines (s : gostring) (c : rune) :
  In c (removePunctuationOnlyLines s) -> c = NL \/ In c s.
Proof.
  unfold removePunctuationOnlyLines, Join. intros H.
  apply In_joinWith in H as [H|(l & Hl & Hc)]; [now left|].
  right. apply In_nonPunctuationLines in Hl as (x & Hx & ->).
  apply TrimSpace_incl in Hc. now apply (In_Split s x).
Qed.

(** A character of an output is a newline or a character of one of the
    sentences. *)
Lemma In_output (ss : list gostring) (c : rune) :
  In c (output ss) -> c = NL \/ exists seg, In seg ss /\ In c seg.
Proof.
  unfold output, prepared, splitAfterPunctuation, joinLines, Join.
  intros H.
  apply In_removeEmptyLines in H as [H|H]; [now left|].
  apply In_removePunctuationOnlyLines in H as [H|H]; [now left|].
  apply In_ReplaceAllString in H as [H|H]; [now left|].
  now apply In_joinWith in H.
Qed.

Lemma In_matches_class (cls : rune -> bool) (lines : list gostring)
      (seg : gostring) (c : rune) :
  In seg (flat_map (FindAllString cls) lines) -> In c seg -> cls c = true.
Proof.
  intros Hs Hc. apply in_flat_map in Hs as (line & _ & Hs).
  destruct (FindAllString_spec cls line) as (_ & H & _).
  rewrite Forall_forall in H. destruct (H seg Hs) as [_ Hf].
  rewrite forallb_forall in Hf. now apply Hf.
Qed.

(** Every character of the Chinese file is of the Chinese class and every
    character of the English file is of the English class; the newlines
    between the lines are themselves of both classes. *)
Theorem output_characters_in_class (lines : list gostring) (c : rune) :
  (In c (output (chineseSentences (extract lines))) ->
   chineseClass c = true)
  /\ (In c (output (englishSentences (extract lines))) ->
      englishClass c = true).
Proof.
  unfold extract. rewrite fold_scanLine.
  cbn [chineseSentences englishSentences app].
  split; intros H; apply In_output in H as [->|(seg & Hs & Hc)];
    try reflexivity; eapply In_matches_class; eassumption.
Qed.

(** The English file of [helloLine] holds the comma of [Hello,]. *)
Lemma output_characters_in_class_witness : englishClass 44 = true.
Proof.
  apply (proj2 (output_characters_in_class [helloLine] 44)).
  vm_compute. auto 10.
Defined.

Lemma flat_map_app_Permutation (f g : gostring -> list gostring)
      (lines : list gostring) :
  Permutation (flat_map (fun line => f line ++ g line) lines)
              (flat_map f lines ++ flat_map g lines).
Proof.
  induction lines as [|l ls IH]; simpl; [constructor|].
  rewrite <- !app_assoc. apply Permutation_app_head.
  rewrite IH.
  rewrite !app_assoc. apply Permutation_app_tail.
  apply Permutation_app_comm.
Qed.

(** The Combined list holds the sentences of the Chinese list and those
    of the English list, each as many times as there, and no other; for
    an input of one line it is the Chinese list followed by the English
    list. *)
Theorem combined_is_both_lists (lines : list gostring) :
  Permutation (combinedSentences (extract lines))
              (chineseSentences (extract lines)
               ++ englishSentences (extract lines))
  /\ List.length (combinedSentences (extract lines))
     = (List.length (chineseSentences (extract lines))
        + List.length (englishSentences (extract lines)))%nat
  /\ (forall line,
        combinedSentences (extract [line])
        = chineseSentences (extract [line])
          ++ englishSentences (extract [line])).
Proof.
  assert (H : Permutation (combinedSentences (extract lines))
                (chineseSentences (extract lines)
                 ++ englishSentences (extract lines))).
  { unfold extract. rewrite fold_scanLine.
    cbn [chineseSentences englishSentences combinedSentences app].
    apply flat_map_app_Permutation. }
  split; [exact H|]. split.
  - rewrite <- length_app. now apply Permutation_length.
  - intros line. unfold extract. rewrite fold_scanLine. simpl.
    now rewrite !app_nil_r.
Qed.

(** ** What the splitter adds *)

Section Splitting.
Variable cls : rune -> bool.

Lemma ReplaceAllString_app (a b : gostring) :
  ReplaceAllString cls (a ++ b)
  = ReplaceAllString cls a ++ ReplaceAllString cls b.
Proof.
  induction a as [|c a IH]; [reflexivity|].
  simpl. destruct (cls c); simpl; now rewrite IH.
Qed.

Lemma ReplaceAllString_removeNewlines (s : gostring) :
  removeNewlines (ReplaceAllString cls s) = removeNewlines s.
Proof.
  unfold removeNewlines. induction s as [|c s IH]; [reflexivity|].
  simpl. destruct (cls c); simpl; rewrite IH;
    destruct (c =? NL); reflexivity.
Qed.

Lemma ReplaceAllString_length (s : gostring) :
  List.length (ReplaceAllString cls s)
  = (List.length s + List.length (filter cls s))%nat.
Proof.
  induction s as [|c s IH]; [reflexivity|].
  simpl. destruct (cls c); simpl; rewrite IH; lia.
Qed.

Lemma ReplaceAllString_injective (s t : gostring) :
  ReplaceAllString cls s = ReplaceAllString cls t -> s = t.
Proof.
  revert t. induction s as [|c s IH]; intros [|d t]; simpl.
  - reflexivity.
  - destruct (cls d); discriminate.
  - destruct (cls c); discriminate.
  - destruct (cls c) eqn:Hc, (cls d) eqn:Hd; intros E;
      inversion E; subst; try congruence; f_equal; now apply IH.
Qed.

Lemma ReplaceAllString_fixed (s : gostring) :
  ReplaceAllString cls s = s <-> outside cls s = true.
Proof.
  split.
  - intros E. apply (f_equal (@List.length rune)) in E.
    rewrite ReplaceAllString_length in E.
    apply filter_nil_outside.
    destruct (filter cls s); [reflexivity | simpl in E; lia].
  - unfold outside. induction s as [|c s IH]; [reflexivity|].
    simpl. intros H. apply andb_true_iff in H as [Hc Hs].
    apply negb_true_iff in Hc. rewrite Hc. now rewrite IH.
Qed.
End Splitting.

(** The splitter only adds newlines: without its newlines its result is
    the buffer without its newlines, and it is longer than the buffer by
    the number of splitter characters in it. *)
Theorem splitter_only_adds_newlines (buffer : gostring) :
  removeNewlines (splitAfterPunctuation buffer) = removeNewlines buffer
  /\ List.length (splitAfterPunctuation buffer)
     = (List.length buffer
        + List.length (filter splitterClass buffer))%nat.
Proof.
  split; [apply ReplaceAllString_removeNewlines
         | apply ReplaceAllString_length].
Qed.

(** The splitter loses nothing: two buffers with the same result are the
    same buffer. *)
Theorem splitter_injective (a b : gostring) :
  splitAfterPunctuation a = splitAfterPunctuation b -> a = b.
Proof. apply ReplaceAllString_injective. Qed.

(** The buffers [a.] and [a.] again. *)
Lemma splitter_injective_witness : str "a." = str "a.".
Proof. apply (splitter_injective (str "a.") (str "a.")). reflexivity. Defined.

(** The splitter returns a buffer unchanged exactly when the buffer holds
    no splitter character; so does the splitter of the sibling program
    for the Chinese punctuation. *)
Theorem splitter_changes_nothing_iff (buffer : gostring) :
  (splitAfterPunctuation buffer = buffer
   <-> outside splitterClass buffer = true)
  /\ (insertNewlines buffer = buffer
      <-> outside chinesePunctuationClass buffer = true).
Proof. split; apply ReplaceAllString_fixed. Qed.

(** ** How the filters compose *)

Lemma Split_nil : Split [] = [[]].
Proof. reflexivity. Qed.

(** Splitting what the empty-line filter returns: its lines, or one empty
    line when none survived. *)
Lemma Split_removeEmptyLines (s : gostring) :
  Split (removeEmptyLines s)
  = match nonEmptyLines (Split s) with
    | [] => [[]]
    | lines => lines
    end.
Proof.
  unfold removeEmptyLines.
  pose proof (removeEmptyLines_survivors s) as H.
  destruct (nonEmptyLines (Split s)) as [|l ls] eqn:E; [reflexivity|].
  apply Split_Join_survivors; [assumption | discriminate].
Qed.

Lemma nonPunctuationLines_nonEmptyLines (lines : list gostring) :
  nonPunctuationLines (nonEmptyLines lines) = nonPunctuationLines lines.
Proof.
  induction lines as [|l ls IH]; [reflexivity|].
  cbn [nonEmptyLines nonPunctuationLines].
  destruct (TrimSpace l) as [|c t] eqn:E; [exact IH|].
  cbn [nonPunctuationLines]. rewrite <- E, TrimSpace_idempotent, E.
  now rewrite IH.
Qed.

Lemma nonEmptyLines_idempotent (lines : list gostring) :
  nonEmptyLines (nonEmptyLines lines) = nonEmptyLines lines.
Proof.
  induction lines as [|l ls IH]; [reflexivity|].
  cbn [nonEmptyLines].
  destruct (TrimSpace l) as [|c t] eqn:E; [exact IH|].
  cbn [nonEmptyLines]. rewrite <- E, TrimSpace_idempotent, E.
  now rewrite IH.
Qed.

Lemma removePunctuationOnlyLines_removeEmptyLines (s : gostring) :
  removePunctuationOnlyLines (removeEmptyLines s)
  = removePunctuationOnlyLines s.
Proof.
  unfold removePunctuationOnlyLines at 1. rewrite Split_removeEmptyLines.
  unfold removePunctuationOnlyLines.
  rewrite <- (nonPunctuationLines_nonEmptyLines (Split s)).
  now destruct (nonEmptyLines (Split s)).
Qed.

(** Each of the two filters is idempotent. *)
Theorem filters_idempotent (content : gostring) :
  removeEmptyLines (removeEmptyLines content) = removeEmptyLines content
  /\ removePunctuationOnlyLines (removePunctuationOnlyLines content)
     = removePunctuationOnlyLines content.
Proof.
  split.
  - apply removeEmptyLines_Join_survivors, removeEmptyLines_survivors.
  - apply removePunctuationOnlyLines_Join_kept.
    apply nonPunctuationLines_kept, splitOn_all_free.
Qed.

(** The punctuation-only filter absorbs the empty-line filter, applied
    before it or after it: the order of the two filters does not matter,
    and the second pass [writeCleanedContent] makes over what
    [removePunctuationOnlyLines] returned changes nothing. *)
Theorem punctuation_filter_absorbs_empty_line_filter (content : gostring) :
  removeEmptyLines (removePunctuationOnlyLines content)
  = removePunctuationOnlyLines content
  /\ removePunctuationOnlyLines (removeEmptyLines content)
     = removePunctuationOnlyLines content.
Proof.
  split.
  - apply (cleaner_is_punctuation_filter content).
  - apply removePunctuationOnlyLines_removeEmptyLines.
Qed.

(** [joinLines] and [strings.Split] are inverse of each other: joining
    the lines of a buffer gives the buffer back, and splitting the join of
    a non-empty list of sentences without newline gives the list back. *)
Theorem joinLines_Split_round_trip (sentences : list gostring) :
  sentences <> [] -> Forall (sepFree NL) sentences ->
  Split (joinLines sentences) = sentences
  /\ forall buffer, joinLines (Split buffer) = buffer.
Proof.
  intros Hne Hf. split; [now apply splitOn_joinWith|].
  apply joinWith_splitOn.
Qed.

(** The two sentences of the sibling scenario. *)
Lemma joinLines_Split_round_trip_witness :
  Split (joinLines [firstSentence; secondSentence])
  = [firstSentence; secondSentence]
  /\ forall buffer, joinLines (Split buffer) = buffer.
Proof.
  apply (joinLines_Split_round_trip [firstSentence; secondSentence]).
  - discriminate.
  - repeat constructor; discriminate.
Defined.

(** ** Where the punctuation stands in the lines *)

Lemma lastOnly_nil (cls : rune -> bool) : lastOnly cls [].
Proof. intros before c after E. now destruct before. Qed.

Lemma lastOnly_single (cls : rune -> bool) (c : rune) : lastOnly cls [c].
Proof.
  intros before d after E _. destruct before as [|x before].
  - now inversion E.
  - inversion E. now destruct before.
Qed.

Lemma lastOnly_cons (cls : rune -> bool) (c : rune) (l : gostring) :
  cls c = false -> lastOnly cls l -> lastOnly cls (c :: l).
Proof.
  intros Hc Hl before d after E Hd. destruct before as [|x before].
  - inversion E; subst. congruence.
  - inversion E; subst. now apply (Hl before d after).
Qed.

Lemma lastOnly_tail (cls : rune -> bool) (c : rune) (l : gostring) :
  lastOnly cls (c :: l) -> lastOnly cls l.
Proof.
  intros H before d after E Hd. apply (H (c :: before) d after); [|exact Hd].
  now rewrite E.
Qed.

Lemma lastOnly_infix (cls : rune -> bool) (a m b : gostring) :
  lastOnly cls (a ++ m ++ b) -> lastOnly cls m.
Proof.
  intros H before c after E Hc.
  assert (Hab : after ++ b = []).
  { apply (H (a ++ before) c); [|exact Hc].
    rewrite E. now rewrite <- !app_assoc. }
  now apply app_eq_nil in Hab as [Hab _].
Qed.

Lemma TrimSpace_infix (l : gostring) :
  exists a b, l = a ++ TrimSpace l ++ b.
Proof.
  unfold TrimSpace, TrimLeftFunc, TrimRightFunc.
  exists (takeWhile IsSpace l),
         (rev (takeWhile IsSpace (rev (dropWhile IsSpace l)))).
  rewrite <- rev_app_distr, takeWhile_dropWhile, rev_involutive.
  now rewrite takeWhile_dropWhile.
Qed.

Lemma lastOnly_TrimSpace (cls : rune -> bool) (l : gostring) :
  lastOnly cls l -> lastOnly cls (TrimSpace l).
Proof.
  intros H. destruct (TrimSpace_infix l) as (a & b & E).
  rewrite E in H. now apply lastOnly_infix in H.
Qed.

(** In every line of what the splitter returns, a character of the class
    is the last one. *)
Lemma Split_ReplaceAllString_lastOnly (cls : rune -> bool) (s : gostring) :
  Forall (lastOnly cls) (Split (ReplaceAllString cls s)).
Proof.
  unfold Split. induction s as [|c s IH].
  - constructor; [apply lastOnly_nil | constructor].
  - cbn [ReplaceAllString]. destruct (cls c) eqn:Hc.
    + destruct (c =? NL) eqn:En.
      * apply Z.eqb_eq in En. subst c. simpl.
        constructor; [apply lastOnly_nil|].
        constructor; [apply lastOnly_nil | exact IH].
      * simpl. rewrite En. constructor; [apply lastOnly_single | exact IH].
    + simpl. destruct (c =? NL).
      * constructor; [apply lastOnly_nil | exact IH].
      * destruct (splitOn NL (ReplaceAllString cls s)) as [|l ls];
          [repeat constructor; apply lastOnly_single|].
        inversion IH; subst.
        constructor; [now apply lastOnly_cons | assumption].
Qed.

Lemma nonEmptyLines_lastOnly (cls : rune -> bool) (lines : list gostring) :
  Forall (lastOnly cls) lines -> Forall (lastOnly cls) (nonEmptyLines lines).
Proof.
  intros H. rewrite Forall_forall in *. intros l Hl.
  apply In_nonEmptyLines in Hl as (x & Hx & ->).
  apply lastOnly_TrimSpace, H, Hx.
Qed.

Lemma nonPunctuationLines_lastOnly (cls : rune -> bool)
      (lines : list gostring) :
  Forall (lastOnly cls) lines ->
  Forall (lastOnly cls) (nonPunctuationLines lines).
Proof.
  intros H. rewrite Forall_forall in *. intros l Hl.
  apply In_nonPunctuationLines in Hl as (x & Hx & ->).
  apply lastOnly_TrimSpace, H, Hx.
Qed.

(** The lines of an output of [main], as the filter computes them. *)
Lemma output_lines (ss : list gostring) :
  output ss
  = Join (nonPunctuationLines
            (Split (splitAfterPunctuation (joinLines ss))))
  /\ linesOf (output ss)
     = nonPunctuationLines (Split (splitAfterPunctuation (joinLines ss))).
Proof.
  assert (E : output ss
              = Join (nonPunctuationLines
                        (Split (splitAfterPunctuation (joinLines ss)))))
    by apply (cleaner_is_punctuation_filter
                (splitAfterPunctuation (joinLines ss))).
  split; [exact E|]. rewrite E. apply linesOf_Join_survivors.
  eapply Forall_impl; [|apply nonPunctuationLines_kept, splitOn_all_free].
  now intros ? [? _].
Qed.

(** In every line of every file [main] writes, a splitter character can
    only be the last character of the line: each line holds at most one
    sentence mark, at its end. *)
Theorem emitted_lines_end_at_punctuation
        (w : world) (path content line : gostring) :
  In (Written path content) (trace (run (main w))) ->
  In line (linesOf content) ->
  lastOnly splitterClass line.
Proof.
  intros Hw Hl.
  assert (Hs : exists ss, content = output ss).
  { apply main_written in Hw. decompose [or] Hw; eauto. }
  destruct Hs as [ss ->].
  destruct (output_lines ss) as [_ E]. rewrite E in Hl.
  pose proof (nonPunctuationLines_lastOnly splitterClass _
                (Split_ReplaceAllString_lastOnly splitterClass
                   (joinLines ss))) as H.
  rewrite Forall_forall in H. now apply H.
Qed.

(** The line [How are you?] of the English file written for
    [helloLine]. *)
Lemma emitted_lines_end_at_punctuation_witness :
  lastOnly splitterClass (str "How are you?").
Proof.
  apply (emitted_lines_end_at_punctuation
           (quietWorld (str "in.txt") helloLine)
           pureEnglishSentencesFile
           (str "Hello," ++ [NL] ++ str "How are you?")).
  - vm_compute. auto 20.
  - vm_compute. auto.
Defined.

(** In every line of the file the sibling program writes, a character of
    the Chinese punctuation can only be the last character of the line. *)
Theorem sibling_lines_end_at_punctuation
        (w : world) (path content line : gostring) :
  In (Written path content) (trace (run (sibling_main w))) ->
  In line (linesOf content) ->
  lastOnly chinesePunctuationClass line.
Proof.
  intros Hw Hl. apply sibling_written in Hw as [_ ->].
  unfold removeEmptyLines in Hl.
  rewrite linesOf_Join_survivors in Hl by apply removeEmptyLines_survivors.
  pose proof (nonEmptyLines_lastOnly chinesePunctuationClass _
                (Split_ReplaceAllString_lastOnly chinesePunctuationClass
                   (file_data w (fst (dialog_Load w))))) as H.
  rewrite Forall_forall in H. now apply H.
Qed.

(** The first line of the file written for the two sentences. *)
Lemma sibling_lines_end_at_punctuation_witness :
  lastOnly chinesePunctuationClass firstSentence.
Proof.
  apply (sibling_lines_end_at_punctuation
           (quietWorld (str "/home/u/a.txt")
                       (firstSentence ++ secondSentence))
           (str "/home/u/a_sc.txt")
           (firstSentence ++ [NL] ++ secondSentence)).
  - vm_compute. auto 20.
  - vm_compute. auto.
Defined.

(** ** Splitting and cleaning again *)

Section Resplitting.
Variable cls : rune -> bool.
Hypothesis cls_NL : cls NL = false.

Lemma ReplaceAllString_lastOnly (l : gostring) :
  lastOnly cls l ->
  ReplaceAllString cls l = l \/ ReplaceAllString cls l = l ++ [NL].
Proof.
  induction l as [|c l IH]; intros H; [now left|].
  simpl. destruct (cls c) eqn:Hc.
  - assert (l = []) by (apply (H [] c l); [reflexivity | exact Hc]).
    subst l. now right.
  - destruct (IH (lastOnly_tail _ _ _ H)) as [E|E]; rewrite E; auto.
Qed.

Lemma nonEmptyLines_cons_survivor (l : gostring) (rest : list gostring) :
  survivor l -> nonEmptyLines (l :: rest) = l :: nonEmptyLines rest.
Proof.
  intros (Hne & Ht & _). cbn [nonEmptyLines].
  rewrite (trimmed_TrimSpace l Ht). destruct l; congruence.
Qed.

Lemma resplit_last (l : gostring) :
  survivor l -> lastOnly cls l ->
  nonEmptyLines (Split (ReplaceAllString cls l)) = [l].
Proof.
  intros Hs Hl. pose proof Hs as (_ & _ & Hf). unfold Split.
  destruct (ReplaceAllString_lastOnly l Hl) as [E|E]; rewrite E.
  - rewrite (splitOn_free NL l Hf). now rewrite nonEmptyLines_cons_survivor.
  - rewrite (splitOn_app NL l [] Hf).
    now rewrite nonEmptyLines_cons_survivor.
Qed.

Lemma resplit_line (l rest : gostring) :
  survivor l -> lastOnly cls l ->
  nonEmptyLines (Split (ReplaceAllString cls (l ++ NL :: rest)))
  = l :: nonEmptyLines (Split (ReplaceAllString cls rest)).
Proof.
  intros Hs Hl. pose proof Hs as (_ & _ & Hf). unfold Split.
  rewrite ReplaceAllString_app. cbn [ReplaceAllString]. rewrite cls_NL.
  destruct (ReplaceAllString_lastOnly l Hl) as [E|E]; rewrite E.
  - rewrite (splitOn_app NL l _ Hf). now rewrite nonEmptyLines_cons_survivor.
  - rewrite <- app_assoc. cbn [app].
    rewrite (splitOn_app NL l _ Hf), nonEmptyLines_cons_survivor by assumption.
    f_equal.
Qed.

Lemma resplit (lines : list gostring) :
  Forall survivor lines -> Forall (lastOnly cls) lines ->
  nonEmptyLines (Split (ReplaceAllString cls (Join lines))) = lines.
Proof.
  intros Hs. induction Hs as [|l ls Hl Hls IH]; intros Hlast;
    [reflexivity|].
  inversion Hlast as [|? ? Hl1 Hl2]; subst.
  destruct ls as [|l' ls].
  - now apply resplit_last.
  - unfold Join. rewrite joinWith_cons by discriminate.
    rewrite resplit_line by assumption. f_equal. now apply IH.
Qed.
End Resplitting.

(** Splitting and cleaning a file [main] wrote gives the same file: the
    split-and-clean stage of the pipeline is idempotent on its results. *)
Theorem output_split_and_cleaned_again (w : world) (path content : gostring) :
  In (Written path content) (trace (run (main w))) ->
  removeEmptyLines
    (removePunctuationOnlyLines (splitAfterPunctuation content))
  = content.
Proof.
  intros Hw.
  assert (Hs : exists ss, content = output ss).
  { apply main_written in Hw. decompose [or] Hw; eauto. }
  destruct Hs as [ss ->].
  destruct (output_lines ss) as [E _]. rewrite E.
  set (lines := nonPunctuationLines
                  (Split (splitAfterPunctuation (joinLines ss)))).
  assert (Hk : Forall (fun l => survivor l /\ ~ punctuationOnly l) lines)
    by apply nonPunctuationLines_kept, splitOn_all_free.
  assert (Hv : Forall survivor lines)
    by (eapply Forall_impl; [|exact Hk]; now intros ? [? _]).
  assert (Hl : Forall (lastOnly splitterClass) lines)
    by apply nonPunctuationLines_lastOnly, Split_ReplaceAllString_lastOnly.
  fold (cleaner (splitAfterPunctuation (Join lines))).
  rewrite (cleaner_is_punctuation_filter
             (splitAfterPunctuation (Join lines))).
  rewrite <- removePunctuationOnlyLines_removeEmptyLines.
  unfold removeEmptyLines, splitAfterPunctuation.
  rewrite (resplit splitterClass eq_refl lines Hv Hl).
  now apply removePunctuationOnlyLines_Join_kept.
Qed.

(** The English file written for [helloLine]. *)
Lemma output_split_and_cleaned_again_witness :
  removeEmptyLines
    (removePunctuationOnlyLines
       (splitAfterPunctuation (str "Hello," ++ [NL] ++ str "How are you?")))
  = str "Hello," ++ [NL] ++ str "How are you?".
Proof.
  apply (output_split_and_cleaned_again
           (quietWorld (str "in.txt") helloLine) pureEnglishSentencesFile).
  vm_compute. auto 20.
Defined.

(** The transformation of the sibling program is idempotent: inserting
    the newlines and removing the empty lines again, in the content of a
    file it wrote or in any content it produced, changes nothing. *)
Theorem sibling_transformation_idempotent (content : gostring) :
  removeEmptyLines
    (insertNewlines (removeEmptyLines (insertNewlines content)))
  = removeEmptyLines (insertNewlines content).
Proof.
  unfold removeEmptyLines at 1 3. unfold insertNewlines at 1.
  f_equal. apply (resplit chinesePunctuationClass eq_refl).
  - apply removeEmptyLines_survivors.
  - apply nonEmptyLines_lastOnly, Split_ReplaceAllString_lastOnly.
Qed.

(** ** The runs of [main] *)

(** When nothing fails, [main] prints the prompt and the selected path,
    creates and writes the Chinese file, the English file and the Combined
    file, in this order, and prints the success message. *)
Theorem main_success_trace (w : world) :
  firstError w = None -> fst (dialog_Load w) <> [] ->
  trace (run (main w))
  = [ Stdout (str "Select the input file:" ++ [NL]);
      Stdout (str "Selected input file: " ++ fst (dialog_Load w) ++ [NL]);
      Created pureChineseSentencesFile;
      Written pureChineseSentencesFile
              (output (chineseSentences (extract (inputLines w))));
      Created pureEnglishSentencesFile;
      Written pureEnglishSentencesFile
              (output (englishSentences (extract (inputLines w))));
      Created combinedSentencesFile;
      Written combinedSentencesFile
              (output (combinedSentences (extract (inputLines w))));
      Stdout (str "All output files written and cleaned successfully!"
              ++ [NL]) ].
Proof.
  unfold firstError, writeError, inputLines, main, run, trace,
    writeCleanedContent, fmt_Printf, fmt_Println, bind, ret, emit, output.
  world_cases w; cbn [fst snd app concat spaced];
    intros H Hp; try discriminate; try contradiction; reflexivity.
Qed.

(** The run on a file holding [helloLine]. *)
Lemma main_success_trace_witness :
  writtenPaths (trace (run (main (quietWorld (str "in.txt") helloLine))))
  = [pureChineseSentencesFile; pureEnglishSentencesFile;
     combinedSentencesFile].
Proof.
  rewrite (main_success_trace (quietWorld (str "in.txt") helloLine)).
  - reflexivity.
  - reflexivity.
  - discriminate.
Defined.

(** When the picker fails or returns no path, or the input cannot be
    opened, or its reading ends with an error, [main] only prints: it
    creates no file and writes none. *)
Theorem main_input_failure_touches_no_file (w : world) :
  snd (dialog_Load w) <> None
  \/ fst (dialog_Load w) = []
  \/ os_Open w (fst (dialog_Load w)) <> None
  \/ snd (Scanner (file_data w (fst (dialog_Load w)))
                  (file_readErr w (fst (dialog_Load w)))) <> None ->
  Forall onlyPrints (trace (run (main w))).
Proof.
  unfold main, run, trace, writeCleanedContent, fmt_Printf, fmt_Println,
    bind, ret, emit.
  world_cases w; cbn [fst snd app];
    intros H; try (repeat constructor);
    decompose [or] H; congruence.
Qed.

(** The input file cannot be opened. *)
Lemma main_input_failure_touches_no_file_witness :
  Forall onlyPrints (trace (run (main missingInputWorld))).
Proof.
  apply (main_input_failure_touches_no_file missingInputWorld).
  right. right. left. discriminate.
Defined.

(** [main] writes its files in a fixed order and stops at the first
    failure: the files written by a run are the Chinese file, the English
    file and the Combined file, or the first two, or the first, or none;
    a later file is never written when an earlier one was not. *)
Theorem main_writes_in_order (w : world) :
  exists n,
    writtenPaths (trace (run (main w)))
    = firstn n [pureChineseSentencesFile; pureEnglishSentencesFile;
                combinedSentencesFile].
Proof.
  unfold main, run, trace, writeCleanedContent, fmt_Printf, fmt_Println,
    bind, ret, emit.
  world_cases w; cbn [fst snd app writtenPaths];
    first [ now exists 0%nat | now exists 1%nat
          | now exists 2%nat | now exists 3%nat ].
Qed.

(** ** Lines the scanner cannot hold *)

Lemma scanTokens_tooLong (pieces : list gostring) :
  Exists tooLong pieces -> snd (scanTokens pieces) = Some ErrTooLong.
Proof.
  induction pieces as [|p ps IH]; intros H; [inversion H|].
  simpl. destruct (MaxScanTokenSize <=? byteLen p) eqn:E; [reflexivity|].
  apply Z.leb_gt in E.
  inversion H as [? ? Hp|? ? Hps]; subst.
  - unfold tooLong in Hp. lia.
  - specialize (IH Hps). destruct (scanTokens ps) as [ts e]. exact IH.
Qed.

Lemma Scanner_tooLong (data : gostring) (readErr : option error) :
  Exists tooLong (scanPieces (Split data)) ->
  snd (Scanner data readErr) = Some ErrTooLong.
Proof.
  intros H. apply scanTokens_tooLong in H. unfold Scanner.
  destruct (scanTokens (scanPieces (Split data))) as [ts e].
  simpl in *. now subst e.
Qed.

Lemma sepFree_repeat (sep c : rune) (n : nat) :
  c <> sep -> sepFree sep (repeat c n).
Proof. intros H. induction n; simpl; constructor; assumption. Qed.

Lemma byteLen_repeat (c : rune) (n : nat) :
  c < 128 -> byteLen (repeat c n) = Z.of_nat n.
Proof.
  intros H. induction n as [|n IH]; [reflexivity|].
  cbn [repeat byteLen fold_right]. fold (byteLen (repeat c n)).
  rewrite IH. unfold utf8_len.
  destruct (c <? 128) eqn:E; [lia | apply Z.ltb_ge in E; lia].
Qed.

Lemma outside_repeat (cls : rune -> bool) (c : rune) (n : nat) :
  cls c = false -> outside cls (repeat c n) = true.
Proof.
  intros H. unfold outside. induction n; simpl; [reflexivity|].
  now rewrite H.
Qed.

Lemma longLine_tooLong : Exists tooLong (scanPieces (Split longLine)).
Proof.
  unfold Split, longLine.
  rewrite splitOn_free by (apply sepFree_repeat; discriminate).
  assert (Hlen : byteLen (repeat 97 (Z.to_nat MaxScanTokenSize))
                 = MaxScanTokenSize).
  { rewrite byteLen_repeat by reflexivity.
    apply Z2Nat.id. discriminate. }
  cbn [scanPieces].
  destruct (repeat 97 (Z.to_nat MaxScanTokenSize)) as [|c t] eqn:E.
  - discriminate Hlen.
  - constructor. unfold tooLong. rewrite Hlen. apply Z.le_refl.
Qed.

(** When a line of the input is of 65536 bytes or more, [main] reports
    that the token is too long and writes no file, although the file was
    opened and read without error. *)
Theorem main_rejects_long_line (w : world) (path : gostring) :
  dialog_Load w = (path, None) -> path <> [] ->
  os_Open w path = None ->
  Exists tooLong (scanPieces (Split (file_data w path))) ->
  trace (run (main w))
  = [ Stdout (str "Select the input file:" ++ [NL]);
      Stdout (str "Selected input file: " ++ path ++ [NL]);
      Stdout
        (str "Error reading input file: bufio.Scanner: token too long"
         ++ [NL]) ].
Proof.
  intros Hload Hne Hopen Hlong.
  apply (Scanner_tooLong _ (file_readErr w path)) in Hlong.
  unfold main. rewrite Hload.
  destruct path as [|c path]; [congruence|].
  rewrite Hopen.
  destruct (Scanner (file_data w (c :: path)) (file_readErr w (c :: path)))
    as [lines e].
  simpl in Hlong. subst e. reflexivity.
Qed.

(** The input is one line of 65536 letters. *)
Lemma main_rejects_long_line_witness :
  writtenPaths (trace (run (main (quietWorld (str "in.txt") longLine))))
  = [].
Proof.
  rewrite (main_rejects_long_line
             (quietWorld (str "in.txt") longLine) (str "in.txt")).
  - reflexivity.
  - reflexivity.
  - discriminate.
  - reflexivity.
  - exact longLine_tooLong.
Defined.

(** When a line of the text with the newlines inserted is of 65536 bytes
    or more, the sibling program reports that the token is too long and
    writes no file. *)
Theorem sibling_rejects_long_line (w : world) (path content : gostring) :
  dialog_Load w = (path, None) ->
  os_ReadFile w path = inl content ->
  Exists tooLong (scanPieces (Split (insertNewlines content))) ->
  trace (run (sibling_main w))
  = [ Stdout (str "Selected input file: " ++ path ++ [NL]);
      Stdout
        (str "Error while removing empty lines: bufio.Scanner: token too long"
         ++ [NL]) ].
Proof.
  intros Hload Hread Hlong.
  apply (Scanner_tooLong _ None) in Hlong.
  unfold sibling_main. rewrite Hload, Hread.
  destruct (Scanner (insertNewlines content) None) as [tokens e].
  simpl in Hlong. subst e. reflexivity.
Qed.

(** The input is one line of 65536 letters, without punctuation. *)
Lemma sibling_rejects_long_line_witness :
  writtenPaths
    (trace (run (sibling_main (quietWorld (str "/home/u/a.txt") longLine))))
  = [].
Proof.
  rewrite (sibling_rejects_long_line
             (quietWorld (str "/home/u/a.txt") longLine)
             (str "/home/u/a.txt") longLine).
  - reflexivity.
  - reflexivity.
  - reflexivity.
  - unfold insertNewlines.
    replace (ReplaceAllString chinesePunctuationClass longLine)
      with longLine
      by (symmetry; apply ReplaceAllString_fixed, outside_repeat;
          reflexivity).
    exact longLine_tooLong.
Defined.

(** ** The output path of the sibling program *)

Ltac touched_cases :=
  cbn [fst snd app In];
  let H := fresh "H" in
  let E := fresh "E" in
  intros H; decompose [or] H; subst; try contradiction;
  cbn [touchedPath]; intros E; try discriminate; try (now inversion E).

Lemma sibling_touched (w : world) (e : event) (p : gostring) :
  In e (trace (run (sibling_main w))) -> touchedPath e = Some p ->
  p = outputFilePath (fst (dialog_Load w)).
Proof.
  unfold sibling_main, run, trace, os_ReadFile, os_WriteFile, fmt_Printf,
    fmt_Println, bind, ret, emit.
  destruct (dialog_Load w) as [path [err|]]; cbn [fst snd].
  - destruct (isCancelled err); touched_cases.
  - destruct (os_Open w path); [touched_cases|].
    destruct (file_readErr w path); [touched_cases|].
    destruct (Scanner (insertNewlines (file_data w path)) None)
      as [tokens [err|]]; [touched_cases|].
    destruct (os_Create w (outputFilePath path)); [touched_cases|].
    destruct (file_writeErr w (outputFilePath path)); touched_cases.
Qed.

Lemma outputFilePath_differs (path : gostring) :
  path <> [] -> headFails IsPathSeparator (rev path) ->
  outputFilePath path <> path.
Proof.
  intros Hne Hend E.
  destruct (outputFilePath_spec path Hne Hend) as (Hs & _ & _ & _ & Hb).
  rewrite E, <- Hs in Hb at 1.
  apply (f_equal (@List.length rune)) in Hb.
  rewrite !length_app in Hb. simpl in Hb. lia.
Qed.

(** Every file the sibling program creates or writes is at its output
    path, which is not the path of the input: the input file is never
    overwritten. *)
Theorem sibling_never_touches_input (w : world) (e : event) (p : gostring) :
  fst (dialog_Load w) <> [] ->
  headFails IsPathSeparator (rev (fst (dialog_Load w))) ->
  In e (trace (run (sibling_main w))) -> touchedPath e = Some p ->
  p = outputFilePath (fst (dialog_Load w)) /\ p <> fst (dialog_Load w).
Proof.
  intros Hne Hend He Hp.
  assert (E : p = outputFilePath (fst (dialog_Load w)))
    by (eapply sibling_touched; eassumption).
  split; [exact E|]. rewrite E. now apply outputFilePath_differs.
Qed.

(** The file written for [/home/u/a.txt]. *)
Lemma sibling_never_touches_input_witness :
  str "/home/u/a_sc.txt" = outputFilePath (str "/home/u/a.txt")
  /\ str "/home/u/a_sc.txt" <> str "/home/u/a.txt".
Proof.
  apply (sibling_never_touches_input
           (quietWorld (str "/home/u/a.txt")
                       (firstSentence ++ secondSentence))
           (Written (str "/home/u/a_sc.txt")
                    (firstSentence ++ [NL] ++ secondSentence))).
  - discriminate.
  - reflexivity.
  - vm_compute. auto 10.
  - reflexivity.
Defined.

Lemma extLoop_app_stop (a b suffix : gostring) :
  forallb notSeparator a = true -> headFails notSeparator b ->
  extLoop (a ++ b) suffix = extLoop a suffix.
Proof.
  revert suffix. induction a as [|c a IH]; intros suffix Ha Hb.
  - destruct b as [|d b]; [reflexivity|].
    simpl in *. unfold notSeparator in Hb.
    apply negb_false_iff in Hb. now rewrite Hb.
  - simpl in Ha. apply andb_true_iff in Ha as [Hc Ha].
    unfold notSeparator in Hc. apply negb_true_iff in Hc.
    simpl. rewrite Hc. destruct (c =? 46); [reflexivity | now apply IH].
Qed.

Lemma extLoop_hit (r rest suffix : gostring) :
  forallb plainChar r = true ->
  extLoop (r ++ 46 :: rest) suffix = 46 :: rev r ++ suffix.
Proof.
  revert suffix. induction r as [|c r IH]; intros suffix Hr; [reflexivity|].
  simpl in Hr. apply andb_true_iff in Hr as [Hc Hr].
  unfold plainChar, notSeparator in Hc.
  apply andb_true_iff in Hc as [Hs Hd].
  apply negb_true_iff in Hs, Hd.
  simpl. rewrite Hs, Hd, (IH _ Hr). now rewrite <- app_assoc.
Qed.

Lemma extLoop_some (r suffix : gostring) (c : rune) (t : gostring) :
  extLoop r suffix = c :: t ->
  exists r1 r2,
    r = r1 ++ 46 :: r2 /\ forallb plainChar r1 = true
    /\ c :: t = 46 :: rev r1 ++ suffix.
Proof.
  revert suffix. induction r as [|d r IH]; intros suffix H; [discriminate|].
  simpl in H. destruct (IsPathSeparator d) eqn:Hs; [discriminate|].
  destruct (d =? 46) eqn:Hd.
  - apply Z.eqb_eq in Hd. subst d. exists [], r. repeat split.
    now rewrite <- H.
  - destruct (IH _ H) as (r1 & r2 & -> & Hr1 & E).
    exists (d :: r1), r2. repeat split.
    + simpl. unfold plainChar at 1, notSeparator. now rewrite Hs, Hd.
    + rewrite E. simpl. now rewrite <- app_assoc.
Qed.

Lemma extLoop_nil_plain (r suffix : gostring) :
  forallb notSeparator r = true -> extLoop r suffix = [] ->
  forallb plainChar r = true.
Proof.
  revert suffix. induction r as [|c r IH]; intros suffix Hr H; [reflexivity|].
  simpl in Hr. apply andb_true_iff in Hr as [Hc Hr].
  simpl in *. unfold plainChar at 1. rewrite Hc.
  unfold notSeparator in Hc. apply negb_true_iff in Hc. rewrite Hc in H.
  destruct (c =? 46); [discriminate|]. simpl. now apply (IH (c :: suffix)).
Qed.

Lemma extLoop_plain (r suffix : gostring) :
  forallb plainChar r = true -> extLoop r suffix = [].
Proof.
  revert suffix. induction r as [|c r IH]; intros suffix Hr; [reflexivity|].
  simpl in Hr. apply andb_true_iff in Hr as [Hc Hr].
  unfold plainChar, notSeparator in Hc.
  apply andb_true_iff in Hc as [Hs Hd]. apply negb_true_iff in Hs, Hd.
  simpl. rewrite Hs, Hd. now apply IH.
Qed.

(** Inserting plain characters before the extension of a name keeps the
    extension. *)
Lemma extLoop_insert (stem mid ext : gostring) :
  forallb notSeparator (stem ++ ext) = true ->
  forallb plainChar mid = true ->
  extLoop (rev (stem ++ ext)) [] = ext ->
  extLoop (rev (stem ++ mid ++ ext)) [] = ext.
Proof.
  intros Hf Hm E. destruct ext as [|c t].
  - rewrite !app_nil_r in *. rewrite rev_app_distr.
    apply extLoop_plain. rewrite forallb_app.
    rewrite (forallb_rev _ _ Hm). simpl.
    apply (extLoop_nil_plain _ []); [now apply forallb_rev | exact E].
  - destruct (extLoop_some _ _ _ _ E) as (r1 & r2 & _ & Hr1 & Ect).
    rewrite app_nil_r in Ect. rewrite Ect.
    rewrite !rev_app_distr. cbn [rev]. rewrite rev_involutive.
    rewrite <- !app_assoc. cbn [app].
    rewrite (extLoop_hit _ _ _ Hr1). now rewrite app_nil_r.
Qed.

(** The shape of the input path and of the output path. *)
Lemma outputFilePath_shape (path : gostring) :
  path <> [] -> headFails IsPathSeparator (rev path) ->
  exists prefix dir stem,
    path = prefix ++ stem ++ Ext path
    /\ outputFilePath path = dir ++ stem ++ str "_sc" ++ Ext path
    /\ headFails notSeparator (rev prefix)
    /\ headFails notSeparator (rev dir)
    /\ forallb notSeparator (stem ++ Ext path) = true
    /\ Ext path = extLoop (rev (stem ++ Ext path)) [].
Proof.
  intros Hne Hend.
  destruct (path_prefix_name path Hne Hend)
    as (prefix & name & E & Hp & Hn & Hf).
  assert (Hext : Ext path = extLoop (rev name) []).
  { unfold Ext. rewrite E, rev_app_distr.
    apply extLoop_app_stop; [now apply forallb_rev | exact Hp]. }
  destruct (extLoop_suffix (rev path) []) as [stem Es].
  fold (Ext path) in Es. rewrite E in Es at 1.
  rewrite (takeWhile_last_element _ _ Hp Hf), rev_involutive, app_nil_r in Es.
  assert (Hplain : plainName (stem ++ str "_sc" ++ Ext path))
    by (apply suffixed_name_plain; now rewrite <- Es).
  destruct (Clean_okStack prefix) as (rooted & st & Hok & Hclean).
  exists prefix, (dirPrefix rooted st), stem.
  split; [now rewrite <- Es|]. split.
  - unfold outputFilePath.
    rewrite E at 1 2. rewrite (Dir_prefix_name _ _ Hp Hf), Hclean.
    rewrite (Base_prefix_name _ _ Hp Hn Hf), Es, TrimSuffix_app.
    rewrite (Join_cleaned _ _ _ Hok Hplain).
    apply cleaned_snoc, Hplain.
  - split; [exact Hp|]. split; [apply dirPrefix_end|].
    split; [now rewrite <- Es | now rewrite <- Es].
Qed.

(** The output path of the sibling program has the extension of the input
    path. *)
Theorem sibling_output_keeps_extension (path : gostring) :
  path <> [] -> headFails IsPathSeparator (rev path) ->
  Ext (outputFilePath path) = Ext path.
Proof.
  intros Hne Hend.
  destruct (outputFilePath_shape path Hne Hend)
    as (prefix & dir & stem & _ & Eout & _ & Hd & Hf & Hext).
  assert (Hname : forallb notSeparator (stem ++ str "_sc" ++ Ext path)
                  = true).
  { rewrite forallb_app in Hf. apply andb_true_iff in Hf as [Hs He].
    rewrite !forallb_app, Hs, He. reflexivity. }
  unfold Ext at 1. rewrite Eout, rev_app_distr.
  rewrite extLoop_app_stop by (try apply forallb_rev; assumption).
  apply extLoop_insert; [assumption | reflexivity | now symmetry].
Qed.

(** The path [/home/u/a.txt]. *)
Lemma sibling_output_keeps_extension_witness :
  Ext (outputFilePath (str "/home/u/a.txt")) = Ext (str "/home/u/a.txt").
Proof.
  apply (sibling_output_keeps_extension (str "/home/u/a.txt")).
  - discriminate.
  - reflexivity.
Defined.

(** ** The two empty-line filters *)

Lemma scanTokens_short (pieces : list gostring) :
  Forall (fun p => byteLen p < MaxScanTokenSize) pieces ->
  scanTokens pieces = (map dropCR pieces, None).
Proof.
  induction 1 as [|p ps Hp _ IH]; [reflexivity|].
  simpl. apply Z.leb_gt in Hp. now rewrite Hp, IH.
Qed.

(** When every line of a text is shorter than 65536 bytes, the loop of
    the sibling program over the scanner ends without error and computes
    what [removeEmptyLines] of main.go computes: the two programs remove
    the empty lines alike. *)
Theorem sibling_loop_is_removeEmptyLines (text : gostring) :
  Forall (fun p => byteLen p < MaxScanTokenSize) (scanPieces (Split text)) ->
  snd (Scanner text None) = None
  /\ Join (cleanedLines (fst (Scanner text None))) = removeEmptyLines text.
Proof.
  intros H. apply scanTokens_short in H.
  assert (E : Scanner text None
              = (map dropCR (scanPieces (Split text)), None))
    by (unfold Scanner; now rewrite H).
  split; [now rewrite E|].
  apply scanner_loop_removeEmptyLines. now rewrite E.
Qed.

(** The two sentences, the first followed by a carriage return, a newline
    and a blank line. *)
Lemma sibling_loop_is_removeEmptyLines_witness :
  snd (Scanner (firstSentence ++ [CR; NL; 32; NL] ++ secondSentence) None)
  = None
  /\ Join (cleanedLines
             (fst (Scanner
                     (firstSentence ++ [CR; NL; 32; NL] ++ secondSentence)
                     None)))
     = removeEmptyLines
         (firstSentence ++ [CR; NL; 32; NL] ++ secondSentence).
Proof.
  apply (sibling_loop_is_removeEmptyLines
           (firstSentence ++ [CR; NL; 32; NL] ++ secondSentence)).
  vm_compute. repeat constructor.
Defined.

(** ** Characters of both classes *)

Lemma FindAllString_whole (cls : rune -> bool) (line : gostring) :
  line <> [] -> forallb cls line = true -> FindAllString cls line = [line].
Proof.
  intros Hne Hf. apply MaximalRuns_unique. now apply runs_last.
Qed.

(** A non-empty line made of characters that belong to both classes
    (digits, white space, the hyphen, the colon, the full stop, the
    backslash) is one Chinese match and one English match: the Combined
    list holds it twice. *)
Theorem shared_line_extracted_twice (line : gostring) :
  line <> [] ->
  forallb (fun c => chineseClass c && englishClass c) line = true ->
  chineseSentences (extract [line]) = [line]
  /\ englishSentences (extract [line]) = [line]
  /\ combinedSentences (extract [line]) = [line; line].
Proof.
  intros Hne H.
  assert (Hc : forallb chineseClass line = true).
  { rewrite forallb_forall in *. intros c Hc.
    specialize (H c Hc). now apply andb_true_iff in H as [? _]. }
  assert (He : forallb englishClass line = true).
  { rewrite forallb_forall in *. intros c Hx.
    specialize (H c Hx). now apply andb_true_iff in H as [_ ?]. }
  unfold extract. rewrite fold_scanLine.
  cbn [chineseSentences englishSentences combinedSentences app flat_map].
  rewrite !app_nil_r.
  now rewrite (FindAllString_whole _ _ Hne Hc),
    (FindAllString_whole _ _ Hne He).
Qed.

(** The line [123 456]. *)
Lemma shared_line_extracted_twice_witness :
  chineseSentences (extract [str "123 456"]) = [str "123 456"]
  /\ englishSentences (extract [str "123 456"]) = [str "123 456"]
  /\ combinedSentences (extract [str "123 456"])
     = [str "123 456"; str "123 456"].
Proof.
  apply (shared_line_extracted_twice (str "123 456")).
  - discriminate.
  - reflexivity.
Defined.

(** * The programs and the lines the scanner can hold *)

Lemma Scanner_fits (data : gostring) (readErr : option error) :
  linesFit data ->
  Scanner data readErr = (map dropCR (scanPieces (Split data)), readErr).
Proof.
  intros H. apply scanTokens_short in H. unfold Scanner. now rewrite H.
Qed.

Lemma repeat_tooLong (c : rune) :
  c < 128 -> c <> NL ->
  Exists tooLong (scanPieces (Split (repeat c (Z.to_nat MaxScanTokenSize)))).
Proof.
  intros Hc Hn. unfold Split.
  rewrite splitOn_free by now apply sepFree_repeat.
  assert (Hlen : byteLen (repeat c (Z.to_nat MaxScanTokenSize))
                 = MaxScanTokenSize).
  { rewrite byteLen_repeat by assumption. apply Z2Nat.id. discriminate. }
  cbn [scanPieces].
  destruct (repeat c (Z.to_nat MaxScanTokenSize)) as [|d t].
  - discriminate Hlen.
  - constructor. unfold tooLong. rewrite Hlen. apply Z.le_refl.
Qed.

(** The run of the sibling program that writes its file. *)
Lemma sibling_trace_written (w : world) (path content : gostring) :
  dialog_Load w = (path, None) ->
  os_ReadFile w path = inl content ->
  snd (Scanner (insertNewlines content) None) = None ->
  writeError w (outputFilePath path) = None ->
  trace (run (sibling_main w))
  = [ Stdout (str "Selected input file: " ++ path ++ [NL]);
      Created (outputFilePath path);
      Written (outputFilePath path)
              (removeEmptyLines (insertNewlines content));
      Stdout
        (str "Processed file with empty lines removed has been saved to: "
         ++ outputFilePath path ++ [NL]) ].
Proof.
  intros Hload Hread Hscan Hwrite.
  unfold sibling_main. rewrite Hload, Hread.
  destruct (Scanner (insertNewlines content) None) as [tokens e] eqn:ES.
  simpl in Hscan. subst e.
  rewrite (scanner_loop_removeEmptyLines _ _ ES).
  unfold writeError in Hwrite. unfold os_WriteFile.
  destruct (os_Create w (outputFilePath path)); [discriminate|].
  rewrite Hwrite. reflexivity.
Qed.

(** The run of the sibling program that the scanner stops. *)
Lemma sibling_trace_scan_error (w : world) (path content : gostring)
      (e : error) :
  dialog_Load w = (path, None) ->
  os_ReadFile w path = inl content ->
  snd (Scanner (insertNewlines content) None) = Some e ->
  trace (run (sibling_main w))
  = [ Stdout (str "Selected input file: " ++ path ++ [NL]);
      Stdout (str "Error while removing empty lines: " ++ Error e ++ [NL]) ].
Proof.
  intros Hload Hread Hscan.
  unfold sibling_main. rewrite Hload, Hread.
  destruct (Scanner (insertNewlines content) None) as [tokens e'].
  simpl in Hscan. subst e'. reflexivity.
Qed.

(** C9, as stated, fails: for a file holding one line of 65536 letters
    every step succeeds -- the file is read, the output could be created
    and written -- and the text with the newlines inserted is the text
    itself, yet the scanner stops on the line, and the sibling program
    prints the error and writes no file. *)
Lemma sibling_long_line_counterexample :
  os_ReadFile (quietWorld (str "/home/u/a.txt") longLine)
              (str "/home/u/a.txt")
  = inl longLine
  /\ writeError (quietWorld (str "/home/u/a.txt") longLine)
                (outputFilePath (str "/home/u/a.txt"))
     = None
  /\ insertNewlines longLine = longLine
  /\ trace (run (sibling_main (quietWorld (str "/home/u/a.txt") longLine)))
     = [ Stdout (str "Selected input file: /home/u/a.txt" ++ [NL]);
         Stdout
           (str "Error while removing empty lines: bufio.Scanner: token too long"
            ++ [NL]) ]
  /\ ~ In (Written (outputFilePath (str "/home/u/a.txt"))
                   (removeEmptyLines (insertNewlines longLine)))
          (trace (run (sibling_main
                         (quietWorld (str "/home/u/a.txt") longLine)))).
Proof.
  assert (Hfix : insertNewlines longLine = longLine)
    by (apply ReplaceAllString_fixed, outside_repeat; reflexivity).
  assert (Htrace :
            trace (run (sibling_main
                          (quietWorld (str "/home/u/a.txt") longLine)))
            = [ Stdout (str "Selected input file: /home/u/a.txt" ++ [NL]);
                Stdout
                  (str "Error while removing empty lines: bufio.Scanner: token too long"
                   ++ [NL]) ]).
  { apply (sibling_trace_scan_error
             (quietWorld (str "/home/u/a.txt") longLine)
             (str "/home/u/a.txt") longLine ErrTooLong);
      [reflexivity | reflexivity |].
    rewrite Hfix. apply Scanner_tooLong, longLine_tooLong. }
  split; [reflexivity|]. split; [reflexivity|]. split; [exact Hfix|].
  split; [exact Htrace|].
  rewrite Htrace. intros [H|[H|[]]]; discriminate.
Qed.

(** C9, amended.  When the picker returns a path that names a file, the
    file is read, every line of the text with the newlines inserted is
    shorter than 65536 bytes and the output is written without error, the
    sibling program writes one file: its content is the input with a
    newline inserted after every character of [，。？：！；、……——], passed
    through the empty-line filter only; its path is in the directory of
    the input and its last element is the stem of the input, [_sc] and the
    extension of the input.  For the content [第一句。第二句！] the file
    holds the two sentences on separate lines, without a final blank
    line. *)
Theorem sibling_mode_when_lines_fit (w : world) (path content : gostring) :
  dialog_Load w = (path, None) ->
  os_ReadFile w path = inl content ->
  linesFit (insertNewlines content) ->
  writeError w (outputFilePath path) = None ->
  path <> [] -> headFails IsPathSeparator (rev path) ->
  InsertedAfter chinesePunctuationClass content (insertNewlines content)
  /\ In (Written (outputFilePath path)
                 (removeEmptyLines (insertNewlines content)))
        (trace (run (sibling_main w)))
  /\ (forall p c, In (Written p c) (trace (run (sibling_main w))) ->
                  p = outputFilePath path
                  /\ c = removeEmptyLines (insertNewlines content))
  /\ Dir (outputFilePath path) = Dir path
  /\ Base (outputFilePath path)
     = TrimSuffix (Base path) (Ext path) ++ str "_sc" ++ Ext path
  /\ TrimSuffix (Base path) (Ext path) ++ Ext path = Base path
  /\ removeEmptyLines (insertNewlines (firstSentence ++ secondSentence))
     = firstSentence ++ [NL] ++ secondSentence
  /\ linesOf (firstSentence ++ [NL] ++ secondSentence)
     = [firstSentence; secondSentence].
Proof.
  intros Hload Hread Hfit Hwrite Hne Hend.
  apply sibling_mode_scanned; try assumption.
  now rewrite (Scanner_fits _ None Hfit).
Qed.

(** The run on [/home/u/a.txt] holding the two sentences. *)
Lemma sibling_mode_when_lines_fit_witness :
  In (Written (str "/home/u/a_sc.txt")
              (firstSentence ++ [NL] ++ secondSentence))
     (trace (run (sibling_main
                    (quietWorld (str "/home/u/a.txt")
                                (firstSentence ++ secondSentence)))))
  /\ Dir (str "/home/u/a_sc.txt") = str "/home/u"
  /\ Base (str "/home/u/a_sc.txt") = str "a" ++ str "_sc" ++ str ".txt".
Proof.
  pose proof (sibling_mode_when_lines_fit
                (quietWorld (str "/home/u/a.txt")
                            (firstSentence ++ secondSentence))
                (str "/home/u/a.txt") (firstSentence ++ secondSentence)
                eq_refl eq_refl) as H.
  destruct H as (_ & Hw & _ & Hd & Hb & _).
  - vm_compute. repeat constructor.
  - reflexivity.
  - vm_compute. discriminate.
  - vm_compute. reflexivity.
  - split; [exact Hw|]. split; [exact Hd | exact Hb].
Defined.

(** ** The content of the files *)

Lemma nonEmptyLines_nil (lines : list gostring) :
  Forall blank lines -> nonEmptyLines lines = [].
Proof.
  induction 1 as [|l ls Hl _ IH]; [reflexivity|].
  cbn [nonEmptyLines]. unfold blank in Hl. now rewrite Hl.
Qed.

Lemma nonPunctuationLines_nil (lines : list gostring) :
  Forall dropped lines -> nonPunctuationLines lines = [].
Proof.
  induction 1 as [|l ls Hl _ IH]; [reflexivity|].
  cbn [nonPunctuationLines]. destruct Hl as [Hl|Hl].
  - unfold blank in Hl. now rewrite Hl.
  - apply MatchString_punctuationOnly in Hl. rewrite Hl.
    now rewrite andb_false_r.
Qed.

Lemma forallb_repeat (p : rune -> bool) (c : rune) (n : nat) :
  p c = true -> forallb p (repeat c n) = true.
Proof. intros H. induction n; simpl; [reflexivity | now rewrite H]. Qed.

Lemma longBlank_blank : Forall blank (Split longBlank).
Proof.
  unfold Split, longBlank.
  rewrite splitOn_free by (apply sepFree_repeat; discriminate).
  constructor; [|constructor].
  unfold blank, TrimSpace, TrimLeftFunc, TrimRightFunc.
  now rewrite (dropWhile_all_nil IsSpace (repeat 32 _))
    by now apply forallb_repeat.
Qed.

(** The files [main] writes, each with the sentences it is made from. *)
Lemma main_written_files (w : world) (path content : gostring) :
  In (Written path content) (trace (run (main w))) ->
  exists ss,
    In (path, ss) (mainFiles w)
    /\ content = Join (nonEmptyLines (Split (prepared ss))).
Proof.
  unfold mainFiles, inputLines, main, run, trace, writeCleanedContent,
    fmt_Printf, fmt_Println, bind, ret, emit, removeEmptyLines.
  world_cases w; cbn [fst snd app In];
    intros H; decompose [or] H; try discriminate; try contradiction;
    match goal with
    | E : Written _ _ = Written _ _ |- _ => inversion E; subst
    end;
    eexists; (split; [|reflexivity]); auto.
Qed.

(** The run of [main] in which nothing fails. *)
Lemma main_trace_without_error (w : world) :
  firstError w = None -> fst (dialog_Load w) <> [] ->
  trace (run (main w))
  = [ Stdout (str "Select the input file:" ++ [NL]);
      Stdout (str "Selected input file: " ++ fst (dialog_Load w) ++ [NL]);
      Created pureChineseSentencesFile;
      Written pureChineseSentencesFile
              (output (chineseSentences (extract (inputLines w))));
      Created pureEnglishSentencesFile;
      Written pureEnglishSentencesFile
              (output (englishSentences (extract (inputLines w))));
      Created combinedSentencesFile;
      Written combinedSentencesFile
              (output (combinedSentences (extract (inputLines w))));
      Stdout (str "All output files written and cleaned successfully!"
              ++ [NL]) ].
Proof.
  unfold firstError, writeError, inputLines, main, run, trace,
    writeCleanedContent, fmt_Printf, fmt_Println, bind, ret, emit, output.
  world_cases w; cbn [fst snd app concat spaced];
    intros H Hp; try discriminate; try contradiction; reflexivity.
Qed.

(** The run of [main] that the scanner stops. *)
Lemma main_trace_scan_error (w : world) (e : error) :
  snd (dialog_Load w) = None -> fst (dialog_Load w) <> [] ->
  os_Open w (fst (dialog_Load w)) = None ->
  snd (Scanner (file_data w (fst (dialog_Load w)))
               (file_readErr w (fst (dialog_Load w)))) = Some e ->
  trace (run (main w))
  = [ Stdout (str "Select the input file:" ++ [NL]);
      Stdout (str "Selected input file: " ++ fst (dialog_Load w) ++ [NL]);
      Stdout (str "Error reading input file: " ++ Error e ++ [NL]) ].
Proof.
  unfold main. destruct (dialog_Load w) as [path err]. cbn [fst snd].
  intros -> Hne Hopen Hscan.
  destruct path as [|c path]; [congruence|].
  rewrite Hopen.
  destruct (Scanner (file_data w (c :: path)) (file_readErr w (c :: path)))
    as [lines e'].
  simpl in Hscan. subst e'. reflexivity.
Qed.

Lemma firstError_none (w : world) :
  snd (dialog_Load w) = None -> fst (dialog_Load w) <> [] ->
  os_Open w (fst (dialog_Load w)) = None ->
  file_readErr w (fst (dialog_Load w)) = None ->
  linesFit (file_data w (fst (dialog_Load w))) ->
  writeError w pureChineseSentencesFile = None ->
  writeError w pureEnglishSentencesFile = None ->
  writeError w combinedSentencesFile = None ->
  firstError w = None.
Proof.
  intros Hpick Hne Hopen Hread Hfit Hc He Hk. unfold firstError.
  rewrite Hpick, Hopen, (Scanner_fits _ _ Hfit), Hc, He, Hk. cbn [snd].
  rewrite Hread. now destruct (fst (dialog_Load w)).
Qed.

Lemma output_nil (ss : list gostring) :
  Forall dropped (Split (splitAfterPunctuation (joinLines ss))) ->
  Join (nonEmptyLines (Split (prepared ss))) = [].
Proof.
  intros H. change (Join (nonEmptyLines (Split (prepared ss))))
    with (output ss).
  destruct (output_lines ss) as [E _]. rewrite E.
  now rewrite nonPunctuationLines_nil.
Qed.

Lemma os_ReadFile_ok (w : world) (path : gostring) :
  os_Open w path = None -> file_readErr w path = None ->
  os_ReadFile w path = inl (file_data w path).
Proof. intros H1 H2. unfold os_ReadFile. now rewrite H1, H2. Qed.

Lemma dialog_Load_eta (w : world) :
  snd (dialog_Load w) = None ->
  dialog_Load w = (fst (dialog_Load w), None).
Proof. destruct (dialog_Load w) as [p e]. simpl. now intros ->. Qed.

Lemma writtenPaths_app (a b : list event) :
  writtenPaths (a ++ b) = writtenPaths a ++ writtenPaths b.
Proof.
  induction a as [|e a IH]; [reflexivity|].
  destruct e; simpl; now rewrite IH.
Qed.

(** C10, as stated, fails: a file holding one line of 65536 spaces has
    no surviving line and every step succeeds on it, yet the scanner
    stops on the line and neither program writes a file, empty or not. *)
Lemma blank_long_line_counterexample :
  Forall blank (Split longBlank)
  /\ insertNewlines longBlank = longBlank
  /\ os_ReadFile (quietWorld (str "in.txt") longBlank) (str "in.txt")
     = inl longBlank
  /\ writeError (quietWorld (str "in.txt") longBlank)
                pureChineseSentencesFile
     = None
  /\ writeError (quietWorld (str "in.txt") longBlank)
                (outputFilePath (str "in.txt"))
     = None
  /\ trace (run (main (quietWorld (str "in.txt") longBlank)))
     = [ Stdout (str "Select the input file:" ++ [NL]);
         Stdout (str "Selected input file: in.txt" ++ [NL]);
         Stdout
           (str "Error reading input file: bufio.Scanner: token too long"
            ++ [NL]) ]
  /\ trace (run (sibling_main (quietWorld (str "in.txt") longBlank)))
     = [ Stdout (str "Selected input file: in.txt" ++ [NL]);
         Stdout
           (str "Error while removing empty lines: bufio.Scanner: token too long"
            ++ [NL]) ]
  /\ (forall file,
        ~ In (Written file [])
             (trace (run (main (quietWorld (str "in.txt") longBlank))))
        /\ ~ In (Written file [])
                (trace (run (sibling_main
                               (quietWorld (str "in.txt") longBlank))))).
Proof.
  assert (Hlong : Exists tooLong (scanPieces (Split longBlank)))
    by (apply repeat_tooLong; [reflexivity | discriminate]).
  assert (Hfix : insertNewlines longBlank = longBlank)
    by (apply ReplaceAllString_fixed, outside_repeat; reflexivity).
  assert (Hmain :
            trace (run (main (quietWorld (str "in.txt") longBlank)))
            = [ Stdout (str "Select the input file:" ++ [NL]);
                Stdout (str "Selected input file: in.txt" ++ [NL]);
                Stdout
                  (str "Error reading input file: bufio.Scanner: token too long"
                   ++ [NL]) ]).
  { apply (main_trace_scan_error
             (quietWorld (str "in.txt") longBlank) ErrTooLong);
      [reflexivity | discriminate | reflexivity |].
    apply Scanner_tooLong, Hlong. }
  assert (Hsib :
            trace (run (sibling_main (quietWorld (str "in.txt") longBlank)))
            = [ Stdout (str "Selected input file: in.txt" ++ [NL]);
                Stdout
                  (str "Error while removing empty lines: bufio.Scanner: token too long"
                   ++ [NL]) ]).
  { apply (sibling_trace_scan_error
             (quietWorld (str "in.txt") longBlank)
             (str "in.txt") longBlank ErrTooLong);
      [reflexivity | reflexivity |].
    rewrite Hfix. apply Scanner_tooLong, Hlong. }
  split; [exact longBlank_blank|]. split; [exact Hfix|].
  split; [reflexivity|]. split; [reflexivity|]. split; [reflexivity|].
  split; [exact Hmain|]. split; [exact Hsib|].
  intros file. split.
  - rewrite Hmain. intros [H|[H|[H|[]]]]; discriminate.
  - rewrite Hsib. intros [H|[H|[]]]; discriminate.
Qed.

Lemma In_Written_paths (tr : list event) (path content : gostring) :
  In (Written path content) tr -> In path (writtenPaths tr).
Proof.
  induction tr as [|e tr IH]; [contradiction|].
  intros [->|H]; [now left|].
  destruct e; simpl; auto.
Qed.

(** C10, amended.  The content of every file the two programs write is
    the surviving lines of its buffer -- for [main] the prepared text of
    one of the three lists, for the sibling program the input with the
    newlines inserted -- joined with the newline as a separator only:
    every line of it is a surviving line and it does not end with a line
    terminator.  When every line the scanner reads is shorter than 65536
    bytes and no step fails, each file is written with that content, and
    an input with no surviving line yields an empty file; when a line is
    of 65536 bytes or more, no file is written. *)
Theorem outputs_end_without_newline (w : world) :
  let path := fst (dialog_Load w) in
  let data := file_data w path in
  (forall file content,
      In (Written file content) (trace (run (main w))) ->
      (exists ss,
          In (file, ss) (mainFiles w)
          /\ content = Join (nonEmptyLines (Split (prepared ss))))
      /\ Forall survivor (linesOf content)
      /\ ~ endsWithNewline content)
  /\ (forall file content,
        In (Written file content) (trace (run (sibling_main w))) ->
        file = outputFilePath path
        /\ content = Join (nonEmptyLines (Split (insertNewlines data)))
        /\ Forall survivor (linesOf content)
        /\ ~ endsWithNewline content)
  /\ (snd (dialog_Load w) = None -> path <> [] ->
      os_Open w path = None -> file_readErr w path = None ->
      linesFit data ->
      writeError w pureChineseSentencesFile = None ->
      writeError w pureEnglishSentencesFile = None ->
      writeError w combinedSentencesFile = None ->
      forall file ss,
        In (file, ss) (mainFiles w) ->
        In (Written file (Join (nonEmptyLines (Split (prepared ss)))))
           (trace (run (main w)))
        /\ (Forall dropped (Split (splitAfterPunctuation (joinLines ss))) ->
            In (Written file []) (trace (run (main w)))))
  /\ (snd (dialog_Load w) = None ->
      os_Open w path = None -> file_readErr w path = None ->
      linesFit (insertNewlines data) ->
      writeError w (outputFilePath path) = None ->
      In (Written (outputFilePath path)
                  (Join (nonEmptyLines (Split (insertNewlines data)))))
         (trace (run (sibling_main w)))
      /\ (Forall blank (Split (insertNewlines data)) ->
          In (Written (outputFilePath path) [])
             (trace (run (sibling_main w)))))
  /\ (snd (dialog_Load w) = None -> path <> [] ->
      os_Open w path = None ->
      Exists tooLong (scanPieces (Split data)) ->
      forall file content,
        ~ In (Written file content) (trace (run (main w))))
  /\ (snd (dialog_Load w) = None ->
      os_Open w path = None -> file_readErr w path = None ->
      Exists tooLong (scanPieces (Split (insertNewlines data))) ->
      forall file content,
        ~ In (Written file content) (trace (run (sibling_main w)))).
Proof.
  intros path data. subst path data.
  split; [|split; [|split; [|split; [|split]]]].
  - intros file content H.
    destruct (main_written_files w file content H) as (ss & Hin & ->).
    pose proof (removeEmptyLines_survivors (prepared ss)) as Hs.
    split; [now exists ss|]. split.
    + now rewrite linesOf_Join_survivors.
    + now apply Join_survivors_no_final_newline.
  - intros file content H.
    apply sibling_written in H as [-> ->].
    pose proof (removeEmptyLines_survivors
                  (insertNewlines
                     (file_data w (fst (dialog_Load w))))) as Hs.
    unfold removeEmptyLines.
    split; [reflexivity|]. split; [reflexivity|]. split.
    + now rewrite linesOf_Join_survivors.
    + now apply Join_survivors_no_final_newline.
  - intros Hpick Hne Hopen Hread Hfit Hc He Hk file ss Hin.
    pose proof (main_trace_without_error w
                  (firstError_none w Hpick Hne Hopen Hread Hfit Hc He Hk)
                  Hne) as Htrace.
    assert (Hw : In (Written file (Join (nonEmptyLines
                                           (Split (prepared ss)))))
                    (trace (run (main w)))).
    { rewrite Htrace. unfold mainFiles in Hin.
      destruct Hin as [E|[E|[E|[]]]]; inversion E; subst;
        unfold output, removeEmptyLines; cbn [In]; auto 10. }
    split; [exact Hw|].
    intros Hd. rewrite (output_nil ss Hd) in Hw. exact Hw.
  - intros Hpick Hopen Hread Hfit Hwrite.
    assert (Hw : In (Written (outputFilePath (fst (dialog_Load w)))
                       (Join (nonEmptyLines
                                (Split (insertNewlines
                                          (file_data w
                                             (fst (dialog_Load w))))))))
                    (trace (run (sibling_main w)))).
    { rewrite (sibling_trace_written w _ _ (dialog_Load_eta w Hpick)
                 (os_ReadFile_ok w _ Hopen Hread));
        [| now rewrite (Scanner_fits _ None Hfit) | assumption].
      unfold removeEmptyLines. cbn [In]. auto. }
    split; [exact Hw|].
    intros Hb. rewrite (nonEmptyLines_nil _ Hb) in Hw. exact Hw.
  - intros Hpick Hne Hopen Hlong file content.
    rewrite (main_trace_scan_error w ErrTooLong Hpick Hne Hopen)
      by now apply Scanner_tooLong.
    intros [H|[H|[H|[]]]]; discriminate.
  - intros Hpick Hopen Hread Hlong file content.
    rewrite (sibling_trace_scan_error w _ _ ErrTooLong
               (dialog_Load_eta w Hpick) (os_ReadFile_ok w _ Hopen Hread))
      by now apply Scanner_tooLong.
    intros [H|[H|[]]]; discriminate.
Qed.

(** The English file written for [helloLine]. *)
Lemma outputs_end_without_newline_witness :
  In (Written pureEnglishSentencesFile
              (str "Hello," ++ [NL] ++ str "How are you?"))
     (trace (run (main (quietWorld (str "in.txt") helloLine))))
  /\ ~ endsWithNewline (str "Hello," ++ [NL] ++ str "How are you?").
Proof.
  destruct (outputs_end_without_newline
              (quietWorld (str "in.txt") helloLine))
    as (Hany & _ & Hmain & _).
  assert (Hw : In (Written pureEnglishSentencesFile
                     (str "Hello," ++ [NL] ++ str "How are you?"))
                  (trace (run (main (quietWorld (str "in.txt")
                                                helloLine))))).
  { apply (Hmain eq_refl ltac:(discriminate) eq_refl eq_refl
                 ltac:(vm_compute; repeat constructor)
                 eq_refl eq_refl eq_refl
                 pureEnglishSentencesFile
                 (englishSentences
                    (extract (inputLines
                                (quietWorld (str "in.txt") helloLine))))).
    right. left. reflexivity. }
  split; [exact Hw|]. apply (Hany _ _ Hw).
Defined.
